(** * Realtime meeting interpreter: a shallow embedding of the client audio
      pipeline, the transcript/translation policy and the two relay routes.

    Part I holds the model, one module per source file:
    - [Js]: the values of the platform the code runs on (strings as UTF-16
      code units, numbers, typed-array stores, completion records);
    - [Scribe]: [useRealtimeScribe] (resampler, chunker, event handlers);
    - [Page]: the [Home] component's committed-translation effect;
    - [Json]: JSON values, [JSON.parse] and property reads;
    - [Http], [TranslateRoute], [ScribeTokenRoute]: the two route handlers
      and what they share.
    Part II holds the vocabulary the properties are stated in, and the
    sample inputs they are evaluated on.  Part III holds the properties:
    the chunker (C3), the resampler (C4, C10), the transcript events (C5),
    the committed-translation effect (C6, C7, C9), the translate route
    (C1, C2) and the choice of the upstream key (C8). *)

From Stdlib Require Import ZArith QArith Qround Qabs Lia Lqa Ascii String DecimalString.
From stdpp Require Import base list gmap.

Local Open Scope Z_scope.

(* ===================================================================== *)
(** * Part I - the model                                                  *)
(* ===================================================================== *)

Module Js.

(** ** Strings: sequences of UTF-16 code units.  [length] and [slice] count
       code units, as [String.prototype.length] and [slice] do. *)
Definition code_unit := N.
Definition jsstring := list code_unit.

(** A literal whose characters are all below U+0100. *)
Definition str (s : string) : jsstring :=
  map N_of_ascii (list_ascii_of_string s).

Definition jsstring_eqb (a b : jsstring) : bool := bool_decide (a = b).

(** [s.slice(0, n)] for a non-negative integer [n]. *)
Definition slice_to (n : nat) (s : jsstring) : jsstring := take n s.

(** WhiteSpace and LineTerminator code points, the ones [trim] strips. *)
Definition is_js_space (c : code_unit) : bool :=
  let z := Z.of_N c in
  (9 <=? z) && (z <=? 13)
  || (z =? 32) || (z =? 160) || (z =? 5760)
  || (8192 <=? z) && (z <=? 8202)
  || (z =? 8232) || (z =? 8233) || (z =? 8239) || (z =? 8287)
  || (z =? 12288) || (z =? 65279).

Fixpoint trimStart (s : jsstring) : jsstring :=
  match s with
  | c :: s' => if is_js_space c then trimStart s' else s
  | [] => []
  end.

Definition trimEnd (s : jsstring) : jsstring := rev (trimStart (rev s)).

Definition trim (s : jsstring) : jsstring := trimEnd (trimStart s).

(** Template-literal rendering of an integer-valued number. *)
Definition decimal (z : Z) : jsstring :=
  str (NilZero.string_of_int (Z.to_int z)).

(** ** Completion records: a call returns a value or throws. *)
Inductive js_error := TypeError | RangeError | SyntaxError | NetworkError.

Inductive completion (A : Type) :=
| Returns (a : A)
| Throws (e : js_error).
Arguments Returns {A} a.
Arguments Throws {A} e.

Definition bind {A B} (c : completion A) (k : A -> completion B) : completion B :=
  match c with
  | Returns a => k a
  | Throws e => Throws e
  end.

Notation "'let*' x ':=' c 'in' k" := (bind c (fun x => k))
  (at level 10, x name, c at level 100, k at level 200).

(** ** Numbers.

    A JavaScript number is modelled by an exact rational, or NaN, or an
    infinity.  The arithmetic below follows IEEE 754 on the special values;
    on finite values it is exact: binary64 rounding, overflow, underflow and
    the sign of zero are left out.  The quantities the properties are about
    (sample rates in Hz, array lengths, indices, the ratio 48000/16000) are
    integers far below 2^53, on which binary64 arithmetic is exact too. *)
Inductive number :=
| NaN
| Inf (negative : bool)
| Fin (q : Q).

Definition num (z : Z) : number := Fin (inject_Z z).

Definition Qsign (q : Q) : comparison := Z.compare (Qnum q) 0.

Definition num_neg (a : number) : number :=
  match a with
  | NaN => NaN
  | Inf s => Inf (negb s)
  | Fin q => Fin (Qopp q)
  end.

Definition num_add (a b : number) : number :=
  match a, b with
  | NaN, _ | _, NaN => NaN
  | Inf s, Inf t => if Bool.eqb s t then Inf s else NaN
  | Inf s, Fin _ | Fin _, Inf s => Inf s
  | Fin p, Fin q => Fin (Qred (p + q))
  end.

Definition num_sub (a b : number) : number := num_add a (num_neg b).

Definition num_mul (a b : number) : number :=
  match a, b with
  | NaN, _ | _, NaN => NaN
  | Inf s, Inf t => Inf (xorb s t)
  | Inf s, Fin q | Fin q, Inf s =>
      match Qsign q with
      | Eq => NaN
      | Gt => Inf s
      | Lt => Inf (negb s)
      end
  | Fin p, Fin q => Fin (Qred (p * q))
  end.

Definition num_div (a b : number) : number :=
  match a, b with
  | NaN, _ | _, NaN => NaN
  | Inf _, Inf _ => NaN
  | Inf s, Fin q => match Qsign q with Lt => Inf (negb s) | _ => Inf s end
  | Fin _, Inf _ => Fin 0
  | Fin p, Fin q =>
      match Qsign q with
      | Eq => match Qsign p with Eq => NaN | Gt => Inf false | Lt => Inf true end
      | _ => Fin (Qred (p / q))
      end
  end.

(** [a < b]; false as soon as one side is NaN. *)
Definition num_lt (a b : number) : bool :=
  match a, b with
  | NaN, _ | _, NaN => false
  | Inf s, Inf t => s && negb t
  | Inf s, Fin _ => s
  | Fin _, Inf t => negb t
  | Fin p, Fin q => negb (Qle_bool q p)
  end.

(** [a === b] on numbers. *)
Definition num_eq (a b : number) : bool :=
  match a, b with
  | NaN, _ | _, NaN => false
  | Inf s, Inf t => Bool.eqb s t
  | Fin p, Fin q => Qeq_bool p q
  | _, _ => false
  end.

Definition Math_max (a b : number) : number :=
  match a, b with
  | NaN, _ | _, NaN => NaN
  | _, _ => if num_lt a b then b else a
  end.

Definition Math_min (a b : number) : number :=
  match a, b with
  | NaN, _ | _, NaN => NaN
  | _, _ => if num_lt b a then b else a
  end.

Definition Math_floor (a : number) : number :=
  match a with
  | Fin q => num (Qfloor q)
  | _ => a
  end.

(** [Math.round]: the nearest integer, halves going up. *)
Definition Math_round (a : number) : number :=
  match a with
  | Fin q => num (Qfloor (q + (1 # 2)))
  | _ => a
  end.

(** The integer part, towards zero. *)
Definition Qtrunc (q : Q) : Z := Z.quot (Qnum q) (Z.pos (Qden q)).

Definition is_integer (q : Q) : bool := Qeq_bool q (inject_Z (Qtrunc q)).

(** [ToInt16], applied by every store into an [Int16Array]. *)
Definition ToInt16 (a : number) : Z :=
  match a with
  | Fin q =>
      let m := Qtrunc q mod 65536 in
      if 32768 <=? m then m - 65536 else m
  | _ => 0
  end.

(** ** Typed arrays. *)
Definition Float32Array := list number.
Definition Int16Array := list Z.
Definition Uint8Array := list Z.

Definition MAX_SAFE_INTEGER : Z := 2 ^ 53 - 1.

(** [ToIndex]: the length argument of a typed-array constructor. *)
Definition ToIndex (a : number) : completion nat :=
  match a with
  | NaN => Returns 0%nat
  | Inf _ => Throws RangeError
  | Fin q =>
      let n := Qtrunc q in
      if (0 <=? n) && (n <=? MAX_SAFE_INTEGER) then Returns (Z.to_nat n)
      else Throws RangeError
  end.

(** [new Int16Array(length)]: zero-filled.  Only the RangeError that
    [ToIndex] raises is modelled.  An engine also throws a RangeError when
    it cannot allocate the buffer, at a length of its own choosing that is
    far below 2^53 - 1; so a length accepted here is one that passes the
    constructor's own check, and nothing is claimed to be returned on that
    ground alone for an array longer than one that already exists. *)
Definition new_Int16Array (len : number) : completion Int16Array :=
  let* n := ToIndex len in Returns (replicate n 0).

(** [a[i]] for a number [i]: [None] is [undefined]. *)
Definition typed_get {A} (a : list A) (i : number) : option A :=
  match i with
  | Fin q =>
      if is_integer q && (0 <=? Qtrunc q) then a !! Z.to_nat (Qtrunc q) else None
  | _ => None
  end.

(** [a[i] = v] on a typed array: ignored out of range. *)
Definition typed_set {A} (a : list A) (i : nat) (v : A) : list A := <[i := v]> a.

(** [x ?? d] *)
Definition nullish {A} (x : option A) (d : A) : A := default d x.

(** The bytes of [new Uint8Array(pcm16.buffer)], little-endian. *)
Definition int16_bytes (z : Z) : list Z := [z mod 256; (z / 256) mod 256].

Definition buffer_bytes (a : Int16Array) : Uint8Array := concat (map int16_bytes a).

End Js.

Import Js.

(* --------------------------------------------------------------------- *)
(** ** [useRealtimeScribe]                                                *)
(* --------------------------------------------------------------------- *)

Module Scribe.

Inductive LanguageOption := auto | en | ja | ko.

Inductive Kind := kind_partial | kind_committed.

Record TranscriptLine := {
  id : jsstring;
  text : jsstring;
  createdAt : Z;
  kind : Kind
}.

Definition toElevenLabsLanguageCode (lang : LanguageOption) : option LanguageOption :=
  match lang with
  | auto => None
  | _ => Some lang
  end.

(** *** The resampler *)

(** [s < 0 ? s * 0x8000 : s * 0x7fff], then the store into the [Int16Array]. *)
Definition scale (s : number) : Z :=
  ToInt16 (if num_lt s (num 0) then num_mul s (num 32768) else num_mul s (num 32767)).

Definition clamp (s : number) : number := Math_max (num (-1)) (Math_min (num 1) s).

(** The body of the interpolating loop at index [i]. *)
Definition interpolate (input : Float32Array) (ratio : number) (i : nat) : Z :=
  let pos := num_mul (num (Z.of_nat i)) ratio in
  let idx := Math_floor pos in
  let frac := num_sub pos idx in
  let s0 := nullish (typed_get input idx) (num 0) in
  let s1 := nullish (typed_get input (num_add idx (num 1))) s0 in
  let sample := num_add s0 (num_mul (num_sub s1 s0) frac) in
  scale (clamp sample).

(** [for (let i = 0; i < n; i++) out[i] = body(i)] over an array of length
    [n]. *)
Definition fill (n : nat) (body : nat -> Z) (out : Int16Array) : Int16Array :=
  foldl (fun out i => typed_set out i (body i)) out (seq 0 n).

Definition downsampleFloat32ToInt16PCM
    (input : Float32Array) (inputSampleRate outputSampleRate : number)
    : completion Int16Array :=
  if num_eq outputSampleRate inputSampleRate then
    let* out := new_Int16Array (num (Z.of_nat (length input))) in
    Returns (fill (length input)
                  (fun i => scale (clamp (nullish (input !! i) (num 0)))) out)
  else
    let ratio := num_div inputSampleRate outputSampleRate in
    let newLength :=
      Math_max (num 1) (Math_round (num_div (num (Z.of_nat (length input))) ratio)) in
    let* out := new_Int16Array newLength in
    (* the loop bound [newLength] is [out.length], or NaN when [out] is empty *)
    Returns (fill (length out) (interpolate input ratio) out).

(** *** The chunker *)

Definition targetSampleRate : Z := 16000.
Definition chunkMs : Z := 200.

(** [Math.round((targetSampleRate * (chunkMs / 1000)) * 2)] *)
Definition bytesPerChunk : nat :=
  match ToIndex (Math_round
           (num_mul (num_mul (num targetSampleRate) (num_div (num chunkMs) (num 1000)))
                    (num 2))) with
  | Returns n => n
  | Throws _ => 0%nat
  end.

(** The base64 alphabet. *)
Definition base64_char (i : Z) : code_unit :=
  Z.to_N (if i <? 26 then 65 + i
          else if i <? 52 then 97 + (i - 26)
          else if i <? 62 then 48 + (i - 52)
          else if i =? 62 then 43 else 47).

(** [btoa] on the string whose code units are the given bytes. *)
Fixpoint btoa (binary : list Z) : jsstring :=
  match binary with
  | [] => []
  | [a] => [base64_char (a / 4); base64_char (a mod 4 * 16); 61%N; 61%N]
  | [a; b] =>
      [base64_char (a / 4); base64_char (a mod 4 * 16 + b / 16);
       base64_char (b mod 16 * 4); 61%N]
  | a :: b :: c :: rest =>
      base64_char (a / 4) :: base64_char (a mod 4 * 16 + b / 16)
      :: base64_char (b mod 16 * 4 + c / 64) :: base64_char (c mod 64)
      :: btoa rest
  end.

(** [new Uint8Array(numbers)] *)
Definition new_Uint8Array (l : list Z) : Uint8Array := map (fun z => z mod 256) l.

(** [bytesToBase64]: the binary string is put together from slices of
    0x8000 bytes, which make up all the bytes in their order. *)
Definition bytesToBase64 (bytes : Uint8Array) : jsstring := btoa bytes.

(** [lines.join(newline)] *)
Fixpoint join (lines : list jsstring) : jsstring :=
  match lines with
  | [] => []
  | [l] => l
  | l :: rest => l ++ 10%N :: join rest
  end.

(** The argument of one [connection.send] call. *)
Record send_args := {
  audioBase64 : jsstring;
  sampleRate : Z;
  previousText : option jsstring
}.

(** The variables the message handler closes over. *)
Record chunker := {
  pendingBytes : list Z;
  firstChunk : bool
}.

Definition initial_chunker : chunker :=
  {| pendingBytes := []; firstChunk := true |}.

(** [committed.slice(-12).map((c) => c.text)] *)
Definition last_texts (n : nat) (history : list TranscriptLine) : list jsstring :=
  map text (drop (length history - n) history).

(** One turn of [while (pendingBytes.length >= bytesPerChunk)]: the chunk
    cut off the front, and what is passed to [connection.send].  Whether
    [send] throws or not, the handler goes on the same way. *)
Definition send_chunk (history : list TranscriptLine) (c : chunker)
    : (list Z * send_args) * chunker :=
  let chunk := take bytesPerChunk (pendingBytes c) in
  let base64 := bytesToBase64 (new_Uint8Array chunk) in
  ((chunk,
    {| audioBase64 := base64;
       sampleRate := targetSampleRate;
       previousText :=
         if firstChunk c && negb (bool_decide (history = []))
         then Some (join (last_texts 12 history)) else None |}),
   {| pendingBytes := drop bytesPerChunk (pendingBytes c); firstChunk := false |}).

(** The loop, with the number of turns it may take; [None] when they do not
    suffice. *)
Fixpoint drain (turns : nat) (history : list TranscriptLine) (c : chunker)
    : option (list (list Z * send_args) * chunker) :=
  if (length (pendingBytes c) <? bytesPerChunk)%nat then Some ([], c)
  else
    match turns with
    | O => None
    | S turns' =>
        let '(sent, c') := send_chunk history c in
        '(rest, c'') ← drain turns' history c';
        Some (sent :: rest, c'')
    end.

(** The handler from the byte view on: push every byte, then drain. *)
Definition onmessage_bytes (history : list TranscriptLine) (c : chunker) (u8 : Uint8Array)
    : option (list (list Z * send_args) * chunker) :=
  let c1 := {| pendingBytes := pendingBytes c ++ u8; firstChunk := firstChunk c |} in
  drain (length (pendingBytes c1)) history c1.

(** [tap.port.onmessage] *)
Definition onmessage (inputRate : number) (history : list TranscriptLine)
    (c : chunker) (floatChunk : Float32Array)
    : completion (option (list (list Z * send_args) * chunker)) :=
  let* pcm16 := downsampleFloat32ToInt16PCM floatChunk inputRate (num targetSampleRate) in
  Returns (onmessage_bytes history c (buffer_bytes pcm16)).

(** A sequence of byte blocks, one handler call each. *)
Fixpoint deliver (history : list TranscriptLine) (c : chunker) (blocks : list Uint8Array)
    : option (list (list Z * send_args) * chunker) :=
  match blocks with
  | [] => Some ([], c)
  | u8 :: blocks' =>
      '(sent, c') ← onmessage_bytes history c u8;
      '(rest, c'') ← deliver history c' blocks';
      Some (sent ++ rest, c'')
  end.

(** *** The hook's state and the connection's event handlers *)

Record state := {
  isConnected : bool;
  isConnecting : bool;
  lastError : option jsstring;
  partialTranscript : jsstring;
  committed : list TranscriptLine
}.

Definition initial_state : state :=
  {| isConnected := false; isConnecting := false; lastError := None;
     partialTranscript := []; committed := [] |}.

(** An event of the connection; a payload field that is absent is [None]. *)
Inductive RealtimeEvent :=
| OPEN
| CLOSE
| ERROR (error : option jsstring)
| PARTIAL_TRANSCRIPT (data_text : option jsstring)
| COMMITTED_TRANSCRIPT (data_text : option jsstring).

(** What the handler reads from the clock and the random source:
    [Date.now()] for the id, [Math.random().toString(16).slice(2)], and
    [Date.now()] for [createdAt]. *)
Record readings := {
  now_id : Z;
  random_hex : jsstring;
  now_createdAt : Z
}.

(** [x || d] on a string that may be absent. *)
Definition or_string (x : option jsstring) (d : jsstring) : jsstring :=
  match x with
  | Some (c :: r) => c :: r
  | _ => d
  end.

Definition set_partialTranscript (t : jsstring) (s : state) : state :=
  {| isConnected := isConnected s; isConnecting := isConnecting s;
     lastError := lastError s; partialTranscript := t; committed := committed s |}.

Definition set_committed (f : list TranscriptLine -> list TranscriptLine) (s : state) : state :=
  {| isConnected := isConnected s; isConnecting := isConnecting s;
     lastError := lastError s; partialTranscript := partialTranscript s;
     committed := f (committed s) |}.

Definition set_status (connected connecting : bool) (s : state) : state :=
  {| isConnected := connected; isConnecting := connecting;
     lastError := lastError s; partialTranscript := partialTranscript s;
     committed := committed s |}.

Definition set_lastError (e : option jsstring) (s : state) : state :=
  {| isConnected := isConnected s; isConnecting := isConnecting s;
     lastError := e; partialTranscript := partialTranscript s;
     committed := committed s |}.

(** The line the COMMITTED_TRANSCRIPT handler builds. *)
Definition committed_line (r : readings) (text : jsstring) : TranscriptLine :=
  {| id := decimal (now_id r) ++ str "-" ++ random_hex r;
     text := text;
     createdAt := now_createdAt r;
     kind := kind_committed |}.

Definition on_event (r : readings) (ev : RealtimeEvent) (s : state) : state :=
  match ev with
  | OPEN => set_status true false s
  | CLOSE => set_status false false s
  | ERROR err => set_lastError (Some (or_string err (str "Unknown realtime error."))) s
  | PARTIAL_TRANSCRIPT data_text => set_partialTranscript (or_string data_text []) s
  | COMMITTED_TRANSCRIPT data_text =>
      let text := trim (or_string data_text []) in
      match text with
      | [] => s
      | _ :: _ =>
          set_partialTranscript []
            (set_committed (fun prev => prev ++ [committed_line r text]) s)
      end
  end.

Definition reset (s : state) : state :=
  set_lastError None (set_committed (fun _ => []) (set_partialTranscript [] s)).

End Scribe.

(* --------------------------------------------------------------------- *)
(** ** The [Home] component: translating committed segments               *)
(* --------------------------------------------------------------------- *)

Module Page.
Import Scribe.

Record TranslatedLine := {
  t_id : jsstring;
  sourceId : jsstring;
  t_text : jsstring;
  t_createdAt : Z
}.

Inductive Mode := mode_partial | mode_committed.

Inductive DetectedLanguage := det_en | det_ja | det_ko | det_other.

(** The argument of [translateViaApi], which is the body it posts. *)
Record translate_args := {
  a_text : jsstring;
  a_sourceLang : LanguageOption;
  a_targetLang : LanguageOption;
  a_mode : Mode;
  a_updateSummary : bool;
  a_recent : list jsstring;
  a_summary : jsstring
}.

Record TranslateApiOk := {
  detectedLanguage : DetectedLanguage;
  shouldIgnore : bool;
  translation : jsstring;
  updatedSummary : jsstring
}.

(** How the promise of [translateViaApi] settles. *)
Inductive settled :=
| Resolved (res : TranslateApiOk)
| Rejected.

(** The values one render hands to the effect (its dependencies). *)
Record render := {
  inputLang : LanguageOption;
  targetLang : LanguageOption;
  scribe_committed : list TranscriptLine;
  summary : jsstring;
  openaiKey : jsstring
}.

(** The request [translateViaApi] posts to the translate endpoint. *)
Record api_request := {
  key_header : option jsstring;   (* "x-openai-api-key", when a key is set *)
  posted : translate_args         (* the body, before [JSON.stringify] *)
}.

(** What one run of the effect starts. *)
Inductive started :=
| Nothing
| Mirror (last : TranscriptLine)
| Translate (last : TranscriptLine) (shouldUpdateSummary : bool)
            (request : api_request).

Definition lang_eqb (a b : LanguageOption) : bool :=
  match a, b with
  | auto, auto | en, en | ja, ja | ko, ko => true
  | _, _ => false
  end.

Definition outLang (r : render) : LanguageOption :=
  if lang_eqb (targetLang r) auto then en else targetLang r.

(** [translateViaApi], up to the [fetch]: the header is added when a key is
    set in the UI. *)
Definition translateViaApi (openaiKey : jsstring) (args : translate_args) : api_request :=
  {| key_header := match trim openaiKey with [] => None | k => Some k end;
     posted := args |}.

(** The effect "Translate committed segments"; [translatedIds] is the
    content of [translatedIdsRef], which outlives the renders. *)
Definition committed_effect (r : render) (translatedIds : gset jsstring)
    : gset jsstring * started :=
  match last (scribe_committed r) with
  | None => (translatedIds, Nothing)
  | Some l =>
      if bool_decide (id l ∈ translatedIds) then (translatedIds, Nothing)
      else
        let translatedIds := translatedIds ∪ {[ id l ]} in
        if negb (lang_eqb (inputLang r) auto) && lang_eqb (inputLang r) (outLang r)
        then (translatedIds, Mirror l)
        else
          let shouldUpdateSummary :=
            (length (summary r) =? 0)%nat
            || (length (scribe_committed r) mod 4 =? 0)%nat in
          (translatedIds,
           Translate l shouldUpdateSummary
             (translateViaApi (openaiKey r)
                {| a_text := text l;
                   a_sourceLang := inputLang r;
                   a_targetLang := outLang r;
                   a_mode := mode_committed;
                   a_updateSummary := shouldUpdateSummary;
                   a_recent := last_texts 8 (scribe_committed r);
                   a_summary := summary r |}))
  end.

(** The component state the started work writes to. *)
Record panel := {
  translated : list TranslatedLine;
  p_summary : jsstring
}.

Definition translated_line (l : TranscriptLine) (text : jsstring) (now : Z) : TranslatedLine :=
  {| t_id := id l ++ str "-t"; sourceId := id l; t_text := text; t_createdAt := now |}.

(** The microtask of the mirror branch. *)
Definition mirror_microtask (l : TranscriptLine) (now : Z) (p : panel) : panel :=
  {| translated := translated p ++ [translated_line l (text l) now];
     p_summary := p_summary p |}.

(** The rest of the async function once the request has settled. *)
Definition on_settled (l : TranscriptLine) (shouldUpdateSummary : bool)
    (s : settled) (now : Z) (p : panel) : panel :=
  match s with
  | Rejected => p
  | Resolved res =>
      let summary' :=
        if shouldUpdateSummary && negb (bool_decide (updatedSummary res = []))
        then updatedSummary res else p_summary p in
      if shouldIgnore res then {| translated := translated p; p_summary := summary' |}
      else
        match trim (translation res) with
        | [] => {| translated := translated p; p_summary := summary' |}
        | translatedText =>
            {| translated := translated p ++ [translated_line l translatedText now];
               p_summary := summary' |}
        end
  end.

(** What a started piece of work does when it completes. *)
Definition complete (w : started) (s : settled) (now : Z) (p : panel) : panel :=
  match w with
  | Nothing => p
  | Mirror l => mirror_microtask l now p
  | Translate l shouldUpdateSummary _ => on_settled l shouldUpdateSummary s now p
  end.

(** The effect over a sequence of renders, the ref threaded through. *)
Fixpoint run_effects (rs : list render) (translatedIds : gset jsstring)
    : gset jsstring * list started :=
  match rs with
  | [] => (translatedIds, [])
  | r :: rs' =>
      let '(ids', w) := committed_effect r translatedIds in
      let '(ids'', ws) := run_effects rs' ids' in
      (ids'', w :: ws)
  end.

(** One committed line arrives, the effect runs on the new history, and what
    it started completes (a request settling as [s]) before the next line. *)
Record session := {
  history : list TranscriptLine;
  ids : gset jsstring;
  view : panel
}.

Definition initial_session : session :=
  {| history := []; ids := ∅; view := {| translated := []; p_summary := [] |} |}.

Record arrival := {
  line : TranscriptLine;
  outcome : settled;
  now : Z
}.

Definition commit_step (input target : LanguageOption) (key : jsstring)
    (a : arrival) (s : session) : session * started :=
  let history' := history s ++ [line a] in
  let r := {| inputLang := input; targetLang := target;
              scribe_committed := history';
              summary := p_summary (view s); openaiKey := key |} in
  let '(ids', w) := committed_effect r (ids s) in
  ({| history := history'; ids := ids'; view := complete w (outcome a) (now a) (view s) |}, w).

Fixpoint run_session (input target : LanguageOption) (key : jsstring)
    (arrivals : list arrival) (s : session) : session * list started :=
  match arrivals with
  | [] => (s, [])
  | a :: rest =>
      let '(s', w) := commit_step input target key a s in
      let '(s'', ws) := run_session input target key rest s' in
      (s'', w :: ws)
  end.

(** *** The buttons that write the same state

    Besides the arrival of a line, two buttons of the settings panel write
    the state the effect reads.  The effect runs on the render that follows
    each click; a click carries how a request started then would settle,
    and the clock reading at that time. *)
Inductive happening :=
| Arrives (a : arrival)
| ClearSummary (o : settled) (t : Z)
| ClearAll (o : settled) (t : Z).

(** The effect on the render that follows a change of state which is not
    an arrival. *)
Definition rerun (input target : LanguageOption) (key : jsstring)
    (o : settled) (t : Z) (s : session) : session * started :=
  let r := {| inputLang := input; targetLang := target;
              scribe_committed := history s;
              summary := p_summary (view s); openaiKey := key |} in
  let '(ids', w) := committed_effect r (ids s) in
  ({| history := history s; ids := ids'; view := complete w o t (view s) |}, w).

(** "Clear summary": [setSummary] with the empty string. *)
Definition clear_summary (s : session) : session :=
  {| history := history s; ids := ids s;
     view := {| translated := translated (view s); p_summary := [] |} |}.

(** "Clear all": a new set in [translatedIdsRef], [setTranslated([])],
    and [scribe.reset()], which empties the committed history.  The
    summary is left as it is. *)
Definition clear_all (s : session) : session :=
  {| history := []; ids := ∅;
     view := {| translated := []; p_summary := p_summary (view s) |} |}.

(** One happening and the run of the effect that follows it.  Setting the
    summary to the empty string it already is changes no state, and no
    render follows. *)
Definition page_step (input target : LanguageOption) (key : jsstring)
    (h : happening) (s : session) : session * started :=
  match h with
  | Arrives a => commit_step input target key a s
  | ClearSummary o t =>
      match p_summary (view s) with
      | [] => (s, Nothing)
      | _ => rerun input target key o t (clear_summary s)
      end
  | ClearAll o t => rerun input target key o t (clear_all s)
  end.

Fixpoint run_page (input target : LanguageOption) (key : jsstring)
    (happenings : list happening) (s : session) : session * list started :=
  match happenings with
  | [] => (s, [])
  | h :: rest =>
      let '(s', w) := page_step input target key h s in
      let '(s'', ws) := run_page input target key rest s' in
      (s'', w :: ws)
  end.

End Page.

(* --------------------------------------------------------------------- *)
(** ** JSON values, [JSON.parse] and property reads                       *)
(* --------------------------------------------------------------------- *)

Module Json.

#[local] Set Warnings "-register-all".
Inductive json :=
| JNull
| JBool (b : bool)
| JNumber (n : number)
| JString (s : jsstring)
| JArray (items : list json)
| JObject (members : list (jsstring * json)).

(** A JavaScript value read out of parsed JSON; [None] is [undefined]. *)
Definition value := option json.

(** *** Lexer: one code unit at a time *)

Inductive token :=
| TPunct (c : code_unit)          (* one of the six structural characters *)
| TString (s : jsstring)
| TScalar (j : json).             (* a number, true, false or null *)

Inductive lex_mode :=
| LDefault
| LString (acc : jsstring)                       (* reversed *)
| LEscape (acc : jsstring)
| LUnicode (acc : jsstring) (digits : list Z)    (* hex digits read so far *)
| LNumber (lexeme : jsstring)                    (* reversed *)
| LLiteral (expected : jsstring) (t : token).

Definition is_ws (c : code_unit) : bool :=
  match c with 32 | 9 | 10 | 13 => true | _ => false end%N.

Definition is_digit (c : code_unit) : bool := ((48 <=? c) && (c <=? 57))%N.

Definition is_number_char (c : code_unit) : bool :=
  is_digit c || match c with 45 | 43 | 46 | 101 | 69 => true | _ => false end%N.

Definition is_punct (c : code_unit) : bool :=
  match c with 123 | 125 | 91 | 93 | 58 | 44 => true | _ => false end%N.

Definition hex_value (c : code_unit) : option Z :=
  let z := Z.of_N c in
  if (48 <=? z) && (z <=? 57) then Some (z - 48)
  else if (65 <=? z) && (z <=? 70) then Some (z - 55)
  else if (97 <=? z) && (z <=? 102) then Some (z - 87)
  else None.

Fixpoint span_digits (s : jsstring) : jsstring * jsstring :=
  match s with
  | c :: r => if is_digit c then let '(d, r') := span_digits r in (c :: d, r') else ([], s)
  | [] => ([], [])
  end.

Definition digits_value (ds : jsstring) : Z :=
  foldl (fun a d => 10 * a + (Z.of_N d - 48)) 0 ds.

(** The nearest binary64 value is not computed; only the two ends of its
    range are: what rounds to zero is zero, what rounds to an infinity is
    one. *)
Definition in_double_range (q : Q) : number :=
  let a := Qabs q in
  if Qle_bool a (1 # (2 ^ 1075)) then Fin 0
  else if Qle_bool (inject_Z (2 ^ 1024 - 2 ^ 970)) a then Inf (negb (Qle_bool 0 q))
  else Fin (Qred q).

(** The number grammar: an optional minus sign; an integer part without a
    leading zero, unless it is the single digit 0; an optional fraction, a
    dot and at least one digit; an optional exponent, e or E, an optional
    sign and at least one digit. *)
Definition parse_number (s : jsstring) : option number :=
  let '(neg, s1) := match s with 45%N :: r => (true, r) | _ => (false, s) end in
  let '(ip, s2) := span_digits s1 in
  match ip with
  | [] => None
  | 48%N :: _ :: _ => None
  | _ =>
      let '(fp, s3) :=
        match s2 with
        | 46%N :: r => let '(f, r') := span_digits r in (Some f, r')
        | _ => (None, s2)
        end in
      let '(ex, s4) :=
        match s3 with
        | 101%N :: r | 69%N :: r =>
            let '(eneg, r1) :=
              match r with
              | 45%N :: r' => (true, r')
              | 43%N :: r' => (false, r')
              | _ => (false, r)
              end in
            let '(ed, r2) := span_digits r1 in
            (Some (eneg, ed), r2)
        | _ => (None, s3)
        end in
      match fp, ex, s4 with
      | Some [], _, _ => None
      | _, Some (_, []), _ => None
      | _, _, _ :: _ => None
      | _, _, [] =>
          let frac := default [] fp in
          let m := digits_value (ip ++ frac) in
          let e := match ex with
                   | Some (eneg, ed) => if eneg then - digits_value ed else digits_value ed
                   | None => 0
                   end - Z.of_nat (length frac) in
          let m := if neg then - m else m in
          Some (in_double_range
                  (if 0 <=? e then inject_Z (m * 10 ^ e)
                   else Qmake m (Z.to_pos (10 ^ (- e)))))
      end
  end.

Definition lex_state : Type := lex_mode * list token.   (* tokens reversed *)

(** A code unit met outside strings, numbers and literals. *)
Definition lex_default (c : code_unit) (toks : list token) : option lex_state :=
  if is_ws c then Some (LDefault, toks)
  else if is_punct c then Some (LDefault, TPunct c :: toks)
  else if (c =? 34)%N then Some (LString [], toks)
  else if is_number_char c then Some (LNumber [c], toks)
  else if (c =? 116)%N then Some (LLiteral (str "rue") (TScalar (JBool true)), toks)
  else if (c =? 102)%N then Some (LLiteral (str "alse") (TScalar (JBool false)), toks)
  else if (c =? 110)%N then Some (LLiteral (str "ull") (TScalar JNull), toks)
  else None.

Definition lex_step (st : lex_state) (c : code_unit) : option lex_state :=
  let '(mode, toks) := st in
  match mode with
  | LDefault => lex_default c toks
  | LString acc =>
      if (c =? 34)%N then Some (LDefault, TString (rev acc) :: toks)
      else if (c =? 92)%N then Some (LEscape acc, toks)
      else if (c <? 32)%N then None
      else Some (LString (c :: acc), toks)
  | LEscape acc =>
      match c with
      | 34 | 92 | 47 => Some (LString (c :: acc), toks)
      | 98 => Some (LString (8 :: acc), toks)
      | 102 => Some (LString (12 :: acc), toks)
      | 110 => Some (LString (10 :: acc), toks)
      | 114 => Some (LString (13 :: acc), toks)
      | 116 => Some (LString (9 :: acc), toks)
      | 117 => Some (LUnicode acc [], toks)
      | _ => None
      end%N
  | LUnicode acc ds =>
      match hex_value c with
      | None => None
      | Some h =>
          match ds with
          | [d3; d2; d1] =>
              Some (LString (Z.to_N (((d1 * 16 + d2) * 16 + d3) * 16 + h) :: acc), toks)
          | _ => Some (LUnicode acc (h :: ds), toks)
          end
      end
  | LNumber lexeme =>
      if is_number_char c then Some (LNumber (c :: lexeme), toks)
      else
        match parse_number (rev lexeme) with
        | Some n => lex_default c (TScalar (JNumber n) :: toks)
        | None => None
        end
  | LLiteral expected t =>
      match expected with
      | e :: rest =>
          if (c =? e)%N then
            match rest with
            | [] => Some (LDefault, t :: toks)
            | _ => Some (LLiteral rest t, toks)
            end
          else None
      | [] => None
      end
  end.

Fixpoint lex_from (st : lex_state) (s : jsstring) : option lex_state :=
  match s with
  | [] => Some st
  | c :: r => st' ← lex_step st c; lex_from st' r
  end.

Definition lex (s : jsstring) : option (list token) :=
  st ← lex_from (LDefault, []) s;
  match st with
  | (LDefault, toks) => Some (rev toks)
  | (LNumber lexeme, toks) =>
      n ← parse_number (rev lexeme); Some (rev (TScalar (JNumber n) :: toks))
  | _ => None
  end.

(** *** Parser: a stack of the containers still open *)

Inductive array_state := AStart | AValue | AComma.
Inductive object_state := OStart | OKey (k : jsstring) | OColon (k : jsstring) | OValue | OComma.

Inductive frame :=
| FArray (items : list json) (st : array_state)                  (* reversed *)
| FObject (members : list (jsstring * json)) (st : object_state). (* reversed *)

Definition parse_state : Type := list frame * option json.

(** A complete value arrives where the innermost open container, or the
    top level, expects one. *)
Definition accept_value (v : json) (ps : parse_state) : option parse_state :=
  match ps with
  | ([], None) => Some ([], Some v)
  | (FArray items AStart :: stack, r) | (FArray items AComma :: stack, r) =>
      Some (FArray (v :: items) AValue :: stack, r)
  | (FObject ms (OColon k) :: stack, r) =>
      Some (FObject ((k, v) :: ms) OValue :: stack, r)
  | _ => None
  end.

Definition parse_step (ps : parse_state) (t : token) : option parse_state :=
  let '(stack, r) := ps in
  match t with
  | TScalar j => accept_value j ps
  | TString s =>
      match stack with
      | FObject ms OStart :: stack' | FObject ms OComma :: stack' =>
          Some (FObject ms (OKey s) :: stack', r)
      | _ => accept_value (JString s) ps
      end
  | TPunct c =>
      match c, stack with
      | 91, _ => Some (FArray [] AStart :: stack, r)
      | 123, _ => Some (FObject [] OStart :: stack, r)
      | 93, FArray items AStart :: stack' | 93, FArray items AValue :: stack' =>
          accept_value (JArray (rev items)) (stack', r)
      | 125, FObject ms OStart :: stack' | 125, FObject ms OValue :: stack' =>
          accept_value (JObject (rev ms)) (stack', r)
      | 44, FArray items AValue :: stack' => Some (FArray items AComma :: stack', r)
      | 44, FObject ms OValue :: stack' => Some (FObject ms OComma :: stack', r)
      | 58, FObject ms (OKey k) :: stack' => Some (FObject ms (OColon k) :: stack', r)
      | _, _ => None
      end%N
  end.

Fixpoint parse_from (ps : parse_state) (ts : list token) : option parse_state :=
  match ts with
  | [] => Some ps
  | t :: r => ps' ← parse_step ps t; parse_from ps' r
  end.

(** [JSON.parse(text)]: the value, or a SyntaxError. *)
Definition JSON_parse (text : jsstring) : completion json :=
  match ts ← lex text; parse_from ([], None) ts with
  | Some ([], Some v) => Returns v
  | _ => Throws SyntaxError
  end.

(** *** Reading parsed values *)

(** The member of an object: the last one of that name wins. *)
Definition member (ms : list (jsstring * json)) (k : jsstring) : value :=
  snd <$> last (filter (fun m => fst m = k) ms).

(** [v.k] for a property name [k] that is neither an index nor inherited
    from a prototype; reading from [null] throws. *)
Definition get (v : json) (k : jsstring) : completion value :=
  match v with
  | JNull => Throws TypeError
  | JObject ms => Returns (member ms k)
  | JArray items =>
      Returns (if bool_decide (k = str "length")
               then Some (JNumber (num (Z.of_nat (length items)))) else None)
  | JString s =>
      Returns (if bool_decide (k = str "length")
               then Some (JNumber (num (Z.of_nat (length s)))) else None)
  | _ => Returns None
  end.

(** [v?.k] *)
Definition get_opt (v : value) (k : jsstring) : value :=
  match v with
  | None | Some JNull => None
  | Some (JObject ms) => member ms k
  | Some (JArray items) =>
      if bool_decide (k = str "length")
      then Some (JNumber (num (Z.of_nat (length items)))) else None
  | Some (JString s) =>
      if bool_decide (k = str "length")
      then Some (JNumber (num (Z.of_nat (length s)))) else None
  | Some _ => None
  end.

(** [v?.[i]] *)
Definition index_opt (v : value) (i : nat) : value :=
  match v with
  | Some (JArray items) => items !! i
  | Some (JString s) => (fun c => JString [c]) <$> s !! i
  | Some (JObject ms) => member ms (decimal (Z.of_nat i))
  | _ => None
  end.

(** Truthiness. *)
Definition truthy (v : value) : bool :=
  match v with
  | None | Some JNull => false
  | Some (JBool b) => b
  | Some (JNumber NaN) => false
  | Some (JNumber (Inf _)) => true
  | Some (JNumber (Fin q)) => negb (Qeq_bool q 0)
  | Some (JString s) => negb (bool_decide (s = []))
  | Some (JArray _) | Some (JObject _) => true
  end.

(** [v || d] *)
Definition or_else (v : value) (d : json) : json :=
  match v with
  | Some j => if truthy v then j else d
  | None => d
  end.

(** [v === s] for a string [s] *)
Definition is_string (v : value) (s : jsstring) : bool :=
  match v with
  | Some (JString t) => bool_decide (t = s)
  | _ => false
  end.

(** An object literal: members whose value is [undefined] do not reach the
    serialised body. *)
Definition object_literal (ms : list (jsstring * value)) : json :=
  JObject (omap (fun m => pair (fst m) <$> snd m) ms).

End Json.

Import Json.

(* --------------------------------------------------------------------- *)
(** ** What the two routes share: requests, responses, the upstream call   *)
(* --------------------------------------------------------------------- *)

Module Http.

(** [NextResponse.json(body, { status })] *)
Record Response := {
  status : Z;
  body : json
}.

(** The response of the upstream service. *)
Record upstream_response := {
  up_status : Z;
  up_body : jsstring
}.

(** [resp.ok] *)
Definition ok (r : upstream_response) : bool :=
  (200 <=? up_status r) && (up_status r <=? 299).

(** [req.headers.get(name)?.trim()] *)
Definition header_trimmed (h : option jsstring) : option jsstring := trim <$> h.

(** [a || b] on strings that may be absent: the first non-empty one. *)
Definition first_nonempty (a b : option jsstring) : option jsstring :=
  match a with
  | Some (c :: r) => Some (c :: r)
  | _ => match b with
         | Some (c :: r) => Some (c :: r)
         | _ => None
         end
  end.

Definition error_body (msg : string) : json :=
  JObject [(str "error", JString (str msg))].

(** The body of the 502 answer to an upstream failure:
    [{ error, status: resp.status, details: details || undefined }]. *)
Definition failure_body (msg : string) (r : upstream_response) : json :=
  object_literal
    [(str "error", Some (JString (str msg)));
     (str "status", Some (JNumber (num (up_status r))));
     (str "details", match up_body r with [] => None | d => Some (JString d) end)].

End Http.

(* --------------------------------------------------------------------- *)
(** ** [app/api/translate/route.ts]                                       *)
(* --------------------------------------------------------------------- *)

Module TranslateRoute.
Import Http.

Record process_env := {
  OPENAI_API_KEY : option jsstring;
  OPENAI_MODEL : option jsstring;
  OPENAI_MODEL_PARTIAL : option jsstring
}.

Record Request := {
  x_openai_api_key : option jsstring;   (* the header, when present *)
  req_body : jsstring
}.

(** The call to the chat-completions endpoint. *)
Record fetch_call := {
  Authorization : jsstring;
  model : jsstring;
  temperature : Q;
  instruction : jsstring;    (* what the user message starts with *)
  userContent : json         (* what [JSON.stringify] serialises after it *)
}.

Definition getOpenAIKey (env : process_env) (req : Request) : option jsstring :=
  let headerKey := header_trimmed (x_openai_api_key req) in
  first_nonempty (OPENAI_API_KEY env) headerKey.

Definition partial_instruction : jsstring :=
  str "Translate quickly for the following JSON payload. Do NOT expand summary. If updateSummary=false, keep updatedSummary identical to the input summary.".

Definition committed_instruction : jsstring :=
  str "Translate and update summary for the following JSON payload. If updateSummary=false, keep updatedSummary identical to the input summary.".

(** [(payload.text || empty).trim()]: a truthy value that is not a string
    has no [trim]. *)
Definition trimmed_text (v : value) : completion jsstring :=
  match or_else v (JString []) with
  | JString s => Returns (trim s)
  | _ => Throws TypeError
  end.

(** [(payload.summary || empty).slice(0, 800)]: strings and arrays have a
    [slice], the other truthy values do not. *)
Definition sliced_summary (v : value) : completion json :=
  match or_else v (JString []) with
  | JString s => Returns (JString (slice_to 800 s))
  | JArray items => Returns (JArray (take 800 items))
  | _ => Throws TypeError
  end.

Definition is_supported_language (v : value) : bool :=
  is_string v (str "en") || is_string v (str "ja") || is_string v (str "ko").

(** "Normalize / guardrails": the answer built from the parsed content. *)
Definition normalize (payload parsed : json) : completion json :=
  let* detectedLanguage := get parsed (str "detectedLanguage") in
  let* shouldIgnore := get parsed (str "shouldIgnore") in
  let* translation := get parsed (str "translation") in
  let* updatedSummary := get parsed (str "updatedSummary") in
  let* summary :=
    match updatedSummary with
    | Some (JString s) => Returns (JString (slice_to 800 s))
    | _ => let* own := get payload (str "summary") in sliced_summary own
    end in
  Returns (JObject
    [(str "detectedLanguage",
      if is_supported_language detectedLanguage
      then or_else detectedLanguage JNull else JString (str "other"));
     (str "shouldIgnore", JBool (truthy shouldIgnore));
     (str "translation",
      match translation with Some (JString s) => JString s | _ => JString [] end);
     (str "updatedSummary", summary)]).

(** [data.choices?.[0]?.message?.content] *)
Definition message_content (data : json) : completion value :=
  let* choices := get data (str "choices") in
  Returns (get_opt (get_opt (index_opt choices 0) (str "message")) (str "content")).

(** [POST] from the upstream response on. *)
Definition answer (payload : json) (resp : upstream_response) : completion Response :=
  if negb (ok resp) then
    Returns {| status := 502; body := failure_body "Translation request failed." resp |}
  else
    let* data := JSON_parse (up_body resp) in
    let* content := message_content data in
    match content with
    | Some (JString (c :: r)) =>
        match JSON_parse (c :: r) with
        | Throws _ =>
            Returns {| status := 502;
                       body := JObject
                         [(str "error", JString (str "Model response was not valid JSON."));
                          (str "raw", JString (c :: r))] |}
        | Returns parsed =>
            let* out := normalize payload parsed in
            Returns {| status := 200; body := out |}
        end
    | _ =>
        Returns {| status := 502; body := error_body "Model response missing content." |}
    end.

(** The answer to an empty text, without any upstream call. *)
Definition empty (payload : json) : completion Response :=
  let* summary := get payload (str "summary") in
  Returns {| status := 200;
             body := JObject
               [(str "detectedLanguage", JString (str "other"));
                (str "shouldIgnore", JBool false);
                (str "translation", JString []);
                (str "updatedSummary", or_else summary (JString []))] |}.

(** The upstream call for a payload whose trimmed text is [text]. *)
Definition upstream_call (env : process_env) (apiKey : jsstring)
    (payload : json) (text : jsstring) : completion fetch_call :=
  let* mode := get payload (str "mode") in
  let* updateSummary := get payload (str "updateSummary") in
  let* sourceLang := get payload (str "sourceLang") in
  let* targetLang := get payload (str "targetLang") in
  let* summary := get payload (str "summary") in
  let* recent := get payload (str "recent") in
  let is_partial := is_string mode (str "partial") in
  Returns
    {| Authorization := str "Bearer " ++ apiKey;
       model :=
         if is_partial
         then default (str "gpt-4.1-nano") (first_nonempty (OPENAI_MODEL_PARTIAL env) None)
         else default (str "gpt-4.1-mini") (first_nonempty (OPENAI_MODEL env) None);
       temperature := if is_partial then 1 # 10 else 2 # 10;
       instruction := if is_partial then partial_instruction else committed_instruction;
       userContent :=
         object_literal
           [(str "sourceLang", sourceLang);
            (str "targetLang", targetLang);
            (str "text", Some (JString text));
            (str "mode", Some (JString (if is_partial then str "partial" else str "committed")));
            (str "updateSummary", Some (JBool (truthy updateSummary)));
            (str "summary", Some (or_else summary (JString [])));
            (str "recent", Some (or_else recent (JArray [])))] |}.

(** [POST], given how the upstream call goes; the calls it makes are
    returned next to its completion. *)
Definition POST (env : process_env) (req : Request)
    (fetch : fetch_call -> completion upstream_response)
    : list fetch_call * completion Response :=
  match getOpenAIKey env req with
  | None => ([], Returns {| status := 500; body := error_body "Missing OPENAI_API_KEY." |})
  | Some apiKey =>
      match JSON_parse (req_body req) with
      | Throws _ => ([], Returns {| status := 400; body := error_body "Invalid JSON body." |})
      | Returns payload =>
          match (let* t := get payload (str "text") in trimmed_text t) with
          | Throws e => ([], Throws e)
          | Returns [] => ([], empty payload)
          | Returns text =>
              match upstream_call env apiKey payload text with
              | Throws e => ([], Throws e)
              | Returns call => ([call], let* resp := fetch call in answer payload resp)
              end
          end
      end
  end.

End TranslateRoute.

(* --------------------------------------------------------------------- *)
(** ** [app/api/scribe-token/route.ts]                                    *)
(* --------------------------------------------------------------------- *)

Module ScribeTokenRoute.
Import Http.

Record process_env := {
  ELEVENLABS_API_KEY : option jsstring
}.

Record Request := {
  x_elevenlabs_api_key : option jsstring
}.

(** The call to the single-use-token endpoint. *)
Record fetch_call := {
  xi_api_key : jsstring
}.

Definition POST (env : process_env) (req : Request)
    (fetch : fetch_call -> completion upstream_response)
    : list fetch_call * completion Response :=
  let headerKey := header_trimmed (x_elevenlabs_api_key req) in
  match first_nonempty (ELEVENLABS_API_KEY env) headerKey with
  | None => ([], Returns {| status := 500; body := error_body "Missing ELEVENLABS_API_KEY." |})
  | Some apiKey =>
      let call := {| xi_api_key := apiKey |} in
      ([call],
       let* resp := fetch call in
       if negb (ok resp) then
         Returns {| status := 502; body := failure_body "Failed to mint ElevenLabs token." resp |}
       else
         let* data := JSON_parse (up_body resp) in
         let token := get_opt (Some data) (str "token") in
         if truthy token then
           Returns {| status := 200; body := object_literal [(str "token", token)] |}
         else
           Returns {| status := 502; body := error_body "ElevenLabs response missing token." |})
  end.

(** [GET] has the body of [POST]. *)
Definition GET := POST.

End ScribeTokenRoute.

(* --------------------------------------------------------------------- *)
(** ** [bytesToBase64], slice by slice                                    *)
(* --------------------------------------------------------------------- *)

Module Base64.
Import Scribe.

(** [const chunkSize = 0x8000] *)
Definition chunkSize : nat := Z.to_nat 32768.

(** The loop [for (let i = 0; i < bytes.length; i += chunkSize)], from the
    index [i] on: [binary] holds the char codes gathered so far, and each
    turn appends those of [bytes.subarray(i, i + chunkSize)].  [None] when
    the turns do not suffice. *)
Fixpoint gather (turns : nat) (bytes : Uint8Array) (i : nat) (binary : list Z)
    : option (list Z) :=
  if (i <? length bytes)%nat then
    match turns with
    | O => None
    | S turns' =>
        let chunk := take chunkSize (drop i bytes) in
        gather turns' bytes (i + chunkSize) (binary ++ chunk)
    end
  else Some binary.

(** [bytesToBase64] as it is written: gather the binary string, then
    [btoa]. *)
Definition bytesToBase64_by_slices (bytes : Uint8Array) : option jsstring :=
  binary ← gather (length bytes) bytes 0 []; Some (btoa binary).

End Base64.

(* --------------------------------------------------------------------- *)
(** ** [scripts/verify-scribe.mjs]                                        *)
(* --------------------------------------------------------------------- *)

Module VerifyScribe.
Import Http.

(** What the script finds when it starts: the environment, the command
    line, and the file system, which is taken to stay as it is while the
    script runs. *)
Record world := {
  ELEVENLABS_API_KEY : option jsstring;
  argv_2 : option jsstring;
  files : jsstring -> option (list Z)
}.

(** What the script does to the outside, in the order it does it. *)
Inductive effect :=
| console_error (args : list json)
| fetch_token (xi_api_key : jsstring)
| Scribe_connect (token : json)
| connection_send (audioBase64 : jsstring) (sampleRate : Z)
| wait (ms : Z)
| connection_commit
| connection_close.

(** How the process ends: [process.exit(code)], the end of the module, or
    an exception that nothing catches. *)
Inductive ending :=
| exit (code : Z)
| done
| uncaught (e : js_error).

(** [Math.round(16000 * 2 * 0.2)] *)
Definition bytesPerChunk : nat :=
  match ToIndex (Math_round (num_mul (num_mul (num 16000) (num 2)) (Fin (2 # 10)))) with
  | Returns n => n
  | Throws _ => 0%nat
  end.

(** The loop [for (let offset = 0; offset < buf.length; offset += bytesPerChunk)]
    from [offset] on, and what follows it.  [accepts k] is what the [k]-th
    [connection.send] does: return, or throw.  [None] when the turns do
    not suffice. *)
Fixpoint stream (turns : nat) (accepts : nat -> completion unit) (buf : list Z)
    (offset k : nat) : option (list effect * ending) :=
  if (offset <? length buf)%nat then
    match turns with
    | O => None
    | S turns' =>
        let chunk := take bytesPerChunk (drop offset buf) in
        let call := connection_send (Scribe.btoa chunk) 16000 in
        match accepts k with
        | Throws e => Some ([call], uncaught e)
        | Returns _ =>
            '(rest, e) ← stream turns' accepts buf (offset + bytesPerChunk) (S k);
            Some (call :: wait 60 :: rest, e)
        end
    end
  else Some ([connection_commit; wait 1500; connection_close], done).

(** The script, top to bottom. *)
Definition main (w : world) (fetch : jsstring -> completion upstream_response)
    (accepts : nat -> completion unit) : option (list effect * ending) :=
  match ELEVENLABS_API_KEY w with
  | None | Some [] =>
      Some ([console_error [JString (str "Missing ELEVENLABS_API_KEY.")]], exit 1)
  | Some apiKey =>
      match argv_2 w with
      | None | Some [] =>
          Some ([console_error
                   [JString (str "Usage: node scripts/verify-scribe.mjs <path-to-16khz-mono-s16le.pcm>")]],
                exit 1)
      | Some pcmPath =>
          match files w pcmPath with
          | None =>
              Some ([console_error [JString (str "File not found: " ++ pcmPath)]], exit 1)
          | Some buf =>
              match fetch apiKey with
              | Throws e => Some ([fetch_token apiKey], uncaught e)
              | Returns tokenResp =>
                  if negb (ok tokenResp) then
                    Some ([fetch_token apiKey;
                           console_error [JString (str "Failed to mint token:");
                                          JNumber (num (up_status tokenResp));
                                          JString (up_body tokenResp)]],
                          exit 1)
                  else
                    match (let* data := JSON_parse (up_body tokenResp) in
                           get data (str "token")) with
                    | Throws e => Some ([fetch_token apiKey], uncaught e)
                    | Returns None =>
                        Some ([fetch_token apiKey;
                               console_error [JString (str "Token response missing token.")]],
                              exit 1)
                    | Returns (Some token) =>
                        if truthy (Some token) then
                          '(rest, e) ← stream (length buf) accepts buf 0 0;
                          Some (fetch_token apiKey :: Scribe_connect token :: rest, e)
                        else
                          Some ([fetch_token apiKey;
                                 console_error [JString (str "Token response missing token.")]],
                                exit 1)
                    end
              end
          end
      end
  end.

End VerifyScribe.

(* ===================================================================== *)
(** * Part II - the vocabulary of the properties, and sample inputs       *)
(* ===================================================================== *)

Section Vocabulary.
Import Scribe Page Http TranslateRoute.

(** A JSON text written with an apostrophe where the double quote goes. *)
Definition json_text (s : string) : jsstring :=
  map (fun c => if (c =? 39)%N then 34%N else c) (str s).

(** The frames the loop has cut off, in the order of their [send] calls. *)
Definition frames (sent : list (list Z * send_args)) : list (list Z) := map fst sent.

Definition full_frame (a : list Z * send_args) : Prop := length (fst a) = bytesPerChunk.

(** What was sent is the base64 text of the frame. *)
Definition encoded (a : list Z * send_args) : Prop :=
  audioBase64 (snd a) = bytesToBase64 (new_Uint8Array (fst a)).

(** The signed 16-bit range. *)
Definition int16 (z : Z) : Prop := -32768 <= z <= 32767.

(** [r] is [x] rounded to the nearest integer, halves going up. *)
Definition rounds_to (x : Q) (r : Z) : Prop :=
  (inject_Z r - (1 # 2) <= x /\ x < inject_Z r + (1 # 2))%Q.

(** [round(N / (p / q))], for the rates [p] and [q]. *)
Definition rounded_length (N : nat) (p q : Q) : Z :=
  Qfloor (inject_Z (Z.of_nat N) * q / p + (1 # 2)).

Definition live : state :=
  {| isConnected := true; isConnecting := false; lastError := None;
     partialTranscript := str "hel"; committed := [] |}.

Definition at_noon : readings :=
  {| now_id := 1700000000000; random_hex := str "9f3a"; now_createdAt := 1700000000001 |}.

(** The id of the line a piece of started work is for. *)
Definition source_of (w : started) : option jsstring :=
  match w with
  | Nothing => None
  | Mirror l | Translate l _ _ => Some (id l)
  end.

(** The translation requests a piece of started work sends. *)
Definition requests (w : started) : list api_request :=
  match w with
  | Translate _ _ request => [request]
  | _ => []
  end.

(** The [updateSummary] flag of the request, when there is one. *)
Definition flag (w : started) : option bool :=
  match w with
  | Translate _ _ request => Some (a_updateSummary (posted request))
  | _ => None
  end.

Definition started_for (x : jsstring) (ws : list started) : list started :=
  filter (fun w => source_of w = Some x) ws.

Definition hello : TranscriptLine :=
  {| id := str "1700000000000-9f3a"; text := str "Hello";
     createdAt := 1700000000001; kind := kind_committed |}.

Definition english_to_english : render :=
  {| inputLang := en; targetLang := en; scribe_committed := [hello];
     summary := []; openaiKey := [] |}.

Definition auto_to_english (history : list TranscriptLine) (summary : jsstring) : render :=
  {| inputLang := auto; targetLang := en; scribe_committed := history;
     summary := summary; openaiKey := [] |}.

(** The effect sent a request for the line. *)
Definition translated_by_request (w : started) : Prop := flag w <> None.

(** A request that asked for a summary update got its answer, with a
    summary that is not empty. *)
Definition update_answered (w : started) (a : arrival) : Prop :=
  flag w = Some true ->
  exists res, outcome a = Resolved res /\ updatedSummary res <> [].

(** The 1-based index of a committed line is 1 or a multiple of 4. *)
Definition on_schedule (index : nat) : bool :=
  ((index =? 1) || (index mod 4 =? 0))%nat.

(** The same-language rule applies to the selected languages. *)
Definition mirrors (input target : LanguageOption) : bool :=
  negb (lang_eqb input auto)
  && lang_eqb input (if lang_eqb target auto then en else target).

(** The summary is empty exactly as long as no line has been committed. *)
Definition bootstrapped (s : session) : Prop :=
  p_summary (view s) = [] <-> history s = [].

(** A line committed at clock reading [n], and its arrival, answered with
    a summary. *)
Definition spoken (n : Z) (words : string) : TranscriptLine :=
  {| id := decimal n ++ str "-9f3a"; text := str words; createdAt := n;
     kind := kind_committed |}.

Definition answered_arrival (n : Z) (words : string) : arrival :=
  {| line := spoken n words;
     outcome := Resolved {| detectedLanguage := det_ko; shouldIgnore := false;
                            translation := str words;
                            updatedSummary := str "notes" |};
     now := n + 1 |}.

Definition five_lines : list arrival :=
  [answered_arrival 1 "a"; answered_arrival 2 "b"; answered_arrival 3 "c";
   answered_arrival 4 "d"; answered_arrival 5 "e"].

(** The request's [summary] is a string, or is absent, as the type of the
    request body has it. *)
Definition summary_is_text (payload : json) : Prop :=
  exists ms, payload = JObject ms /\
    (member ms (str "summary") = None \/
     exists s, member ms (str "summary") = Some (JString s)).

(** The [updatedSummary] of an answer is a string or an array of at most
    800 elements. *)
Definition summary_bounded (out : list (jsstring * json)) : Prop :=
  match member out (str "updatedSummary") with
  | Some (JString s) => (length s <= 800)%nat
  | Some (JArray items) => (length items <= 800)%nat
  | _ => False
  end.

(** A server with its own key, a request to translate "hi", and an
    upstream that answers 200 with the given text as message content. *)
Definition server : process_env :=
  {| OPENAI_API_KEY := Some (str "sk-server");
     OPENAI_MODEL := None; OPENAI_MODEL_PARTIAL := None |}.

Definition translate_hi : Request :=
  {| x_openai_api_key := None;
     req_body := json_text "{'text':'hi','sourceLang':'auto','targetLang':'ko'}" |}.

Definition completion_body (content : string) : jsstring :=
  json_text "{'choices':[{'message':{'content':'" ++ str content ++ json_text "'}}]}".

Definition upstream_says (content : string) (_ : fetch_call) : completion upstream_response :=
  Returns {| up_status := 200; up_body := completion_body content |}.

(** A request with an empty text and a summary of 801 characters. *)
Definition long_summary : jsstring := replicate 801 (N_of_ascii "a").

Definition empty_text_long_summary : Request :=
  {| x_openai_api_key := None;
     req_body := json_text "{'text':'','summary':'" ++ long_summary ++ json_text "'}" |}.

(** [key] is what the routes pick from the server's environment value and
    the request's header: the environment value when it is set and not
    empty, and only otherwise the header, trimmed. *)
Definition picked (server header : option jsstring) (key : jsstring) : Prop :=
  (server = Some key /\ key <> []) \/
  ((server = None \/ server = Some []) /\
   exists h, header = Some h /\ key = trim h /\ key <> []).

(** Both keys present: the environment value of [server], and a header on
    the request. *)
Definition keyed_request : Request :=
  {| x_openai_api_key := Some (str "sk-header");
     req_body := json_text "{'text':'hi','sourceLang':'auto','targetLang':'ko'}" |}.

Definition token_server : ScribeTokenRoute.process_env :=
  {| ScribeTokenRoute.ELEVENLABS_API_KEY := Some (str "xi-server") |}.

Definition token_request : ScribeTokenRoute.Request :=
  {| ScribeTokenRoute.x_elevenlabs_api_key := Some (str "xi-header") |}.

Definition unreachable {call : Type} (_ : call) : completion upstream_response :=
  Throws NetworkError.

End Vocabulary.

(** ** Vocabulary of the further properties *)

Section MoreVocabulary.
Import Scribe Page Http.

(** The closed form of the conversion of a sample that is a number proper:
    saturated at full scale, and otherwise scaled by 0x8000 below zero and
    by 0x7fff from zero on, the fraction dropped. *)
Definition quantised (a : Q) : Z :=
  if Qle_bool 1 a then 32767
  else if Qle_bool a (-1) then -32768
  else if Qle_bool 0 a then Qtrunc (a * 32767)
  else Qtrunc (a * 32768).

(** A sample that is a number proper: neither NaN nor an infinity. *)
Definition finite (s : number) : Prop := exists q, s = Fin q.

(** An unsigned 8-bit value. *)
Definition byte (z : Z) : Prop := 0 <= z < 256.

(** Two bytes, the low one first, read as a signed 16-bit integer. *)
Definition int16_of_bytes (lo hi : Z) : Z :=
  let u := lo + 256 * hi in
  if 32768 <=? u then u - 65536 else u.

(** A byte block read as signed 16-bit little-endian samples. *)
Fixpoint samples_of_bytes (bytes : list Z) : list Z :=
  match bytes with
  | lo :: hi :: rest => int16_of_bytes lo hi :: samples_of_bytes rest
  | _ => []
  end.

(** What the first [send] after connecting carries as previous text, and
    what every later one carries: the first, the last 12 committed lines
    joined by newlines, if there are any; the later ones, nothing. *)
Definition context_once (first : bool) (history : list TranscriptLine)
    (sent : list (list Z * send_args)) : Prop :=
  match sent with
  | [] => True
  | a :: rest =>
      previousText (snd a) =
        (if first && negb (bool_decide (history = []))
         then Some (join (last_texts 12 history)) else None) /\
      Forall (fun b => previousText (snd b) = None) rest
  end.

(** The place of a character in the base64 alphabet. *)
Definition base64_index (c : code_unit) : Z :=
  let z := Z.of_N c in
  if (65 <=? z) && (z <=? 90) then z - 65
  else if (97 <=? z) && (z <=? 122) then z - 71
  else if (48 <=? z) && (z <=? 57) then z + 4
  else if z =? 43 then 62 else 63.

(** Reading base64 text back: four characters give three bytes, or two or
    one before padding. *)
Fixpoint base64_decode (s : jsstring) : list Z :=
  match s with
  | a :: b :: c :: d :: rest =>
      let i := base64_index a in
      let j := base64_index b in
      let k := base64_index c in
      let l := base64_index d in
      if (d =? 61)%N then
        if (c =? 61)%N then [i * 4 + j / 16]
        else [i * 4 + j / 16; j mod 16 * 16 + k / 4]
      else
        (i * 4 + j / 16) :: (j mod 16 * 16 + k / 4) :: (k mod 4 * 64 + l)
        :: base64_decode rest
  | _ => []
  end.


(** An answer of the shape the page reads: the four members, a detected
    language out of the four tags, a boolean, a string for the translation,
    and a summary that is a string or an array of at most 800 elements. *)
Definition answer_shape (j : json) : Prop :=
  exists lang ignore translation summary,
    j = JObject [(str "detectedLanguage", JString lang);
                 (str "shouldIgnore", JBool ignore);
                 (str "translation", JString translation);
                 (str "updatedSummary", summary)] /\
    lang ∈ [str "en"; str "ja"; str "ko"; str "other"] /\
    match summary with
    | JString s => (length s <= 800)%nat
    | JArray items => (length items <= 800)%nat
    | _ => False
    end.


(** Chunk [i] of a file cut into pieces of [size] bytes. *)
Definition chunk_at (size : nat) (buf : list Z) (i : nat) : list Z :=
  take size (drop (size * i) buf).

(** The number of pieces of 6400 bytes it takes to cover [n] bytes. *)
Definition pieces (n : nat) : nat := Z.to_nat ((Z.of_nat n + 6399) / 6400).

(** One turn of the script's loop on a chunk: the send, then the pause. *)
Definition paced (chunk : list Z) : list VerifyScribe.effect :=
  [VerifyScribe.connection_send (bytesToBase64 chunk) 16000; VerifyScribe.wait 60].

(** The script has nothing to stream: no key, no path, or no such file. *)
Definition nothing_to_stream (w : VerifyScribe.world) : Prop :=
  VerifyScribe.ELEVENLABS_API_KEY w = None \/ VerifyScribe.ELEVENLABS_API_KEY w = Some [] \/
  VerifyScribe.argv_2 w = None \/ VerifyScribe.argv_2 w = Some [] \/
  exists path, VerifyScribe.argv_2 w = Some path /\ VerifyScribe.files w path = None.

(** The token endpoint has answered the key with a 2xx response whose JSON
    body holds the truthy [token]. *)
Definition minted (fetch : jsstring -> completion upstream_response)
    (key : jsstring) (token : json) : Prop :=
  exists resp data,
    fetch key = Returns resp /\ ok resp = true /\
    JSON_parse (up_body resp) = Returns data /\
    get data (str "token") = Returns (Some token) /\
    truthy (Some token) = true.


(** A run of the script on a file of three bytes, with a token endpoint
    that answers every key with the token t-1. *)
Definition three_byte_file : VerifyScribe.world :=
  {| VerifyScribe.ELEVENLABS_API_KEY := Some (str "xi-key");
     VerifyScribe.argv_2 := Some (str "a.pcm");
     VerifyScribe.files :=
       fun path => if bool_decide (path = str "a.pcm") then Some [1; 2; 3] else None |}.

Definition mints_t1 (_ : jsstring) : completion upstream_response :=
  Returns {| up_status := 200; up_body := json_text "{'token':'t-1'}" |}.


(** The events of a connection in the order they arrive, each with the
    readings its handler takes. *)
Definition run_events (evs : list (readings * RealtimeEvent)) (s : state) : state :=
  fold_left (fun s e => on_event (fst e) (snd e) s) evs s.

(** The line an event adds to the history, if it adds one. *)
Definition spoken_line (e : readings * RealtimeEvent) : option TranscriptLine :=
  match snd e with
  | COMMITTED_TRANSCRIPT data_text =>
      match trim (or_string data_text []) with
      | [] => None
      | t => Some (committed_line (fst e) t)
      end
  | _ => None
  end.

(** A line of the history as the page expects it: committed, with a text
    that is not empty and has no white space at either end. *)
Definition tidy (l : TranscriptLine) : Prop :=
  kind l = kind_committed /\ text l <> [] /\ trim (text l) = text l.

(** The last OPEN or CLOSE among the events, if there is one. *)
Definition last_open_or_close (evs : list (readings * RealtimeEvent)) : option bool :=
  last (omap (fun e => match snd e with
                       | OPEN => Some true
                       | CLOSE => Some false
                       | _ => None
                       end) evs).


(** A string that does not start with white space. *)
Definition no_lead (s : jsstring) : Prop :=
  match s with
  | c :: _ => is_js_space c = false
  | [] => True
  end.


(** The lines that arrive in a run of the page. *)
Definition arrived (happenings : list happening) : list TranscriptLine :=
  omap (fun h => match h with Arrives a => Some (line a) | _ => None end) happenings.

(** How the request a happening may start settles. *)
Definition settles (h : happening) : settled :=
  match h with
  | Arrives a => outcome a
  | ClearSummary o _ | ClearAll o _ => o
  end.

(** The panel is in step with the transcript: every line of the history
    has been through the effect; the lines of the panel name lines of the
    history, in the order of the history and each at most once per line;
    and every line of the panel has a text that is not empty and the id of
    its source with "-t" appended. *)
Definition in_step (s : session) : Prop :=
  (forall l, l ∈ history s -> id l ∈ ids s) /\
  sublist (map sourceId (translated (view s))) (map id (history s)) /\
  Forall (fun t => t_text t <> [] /\ t_id t = sourceId t ++ str "-t") (translated (view s)).

(** Every answer there is keeps its summary within 800 code units. *)
Definition within_800 (o : settled) : Prop :=
  match o with
  | Resolved res => (length (updatedSummary res) <= 800)%nat
  | Rejected => True
  end.

End MoreVocabulary.

(* ===================================================================== *)
(** * Part III - properties                                               *)
(* ===================================================================== *)

(* --------------------------------------------------------------------- *)
(** ** The chunker                                                        *)
(* --------------------------------------------------------------------- *)

Section Chunker.
Import Scribe.

Local Open Scope nat_scope.

Lemma bytesPerChunk_value : Z.of_nat bytesPerChunk = 6400%Z.
Proof. vm_compute. reflexivity. Qed.

Lemma bytesPerChunk_pos : 0 < bytesPerChunk.
Proof. pose proof bytesPerChunk_value. lia. Qed.

Lemma drain_eq turns history c :
  drain turns history c =
  if length (pendingBytes c) <? bytesPerChunk then Some ([], c)
  else match turns with
       | O => None
       | S turns' =>
           let '(sent, c') := send_chunk history c in
           '(rest, c'') ← drain turns' history c';
           Some (sent :: rest, c'')
       end.
Proof. destruct turns; reflexivity. Qed.

(** Enough turns: the loop leaves by its own test, and what it sent,
    followed by what it kept, is what it started from. *)
Lemma drain_spec turns : forall history c,
  length (pendingBytes c) <= turns ->
  exists sent c',
    drain turns history c = Some (sent, c') /\
    Forall full_frame sent /\
    length (pendingBytes c') < bytesPerChunk /\
    concat (frames sent) ++ pendingBytes c' = pendingBytes c.
Proof.
  pose proof bytesPerChunk_pos as Hpos.
  induction turns as [|turns IH]; intros history c Hlen; rewrite drain_eq.
  - destruct (Nat.ltb_spec (length (pendingBytes c)) bytesPerChunk) as [Hlt|Hge]; [|lia].
    exists [], c. repeat split; auto.
  - destruct (Nat.ltb_spec (length (pendingBytes c)) bytesPerChunk) as [Hlt|Hge].
    + exists [], c. repeat split; auto.
    + cbv zeta. unfold send_chunk.
      set (c1 := {| pendingBytes := drop bytesPerChunk (pendingBytes c); firstChunk := false |}).
      destruct (IH history c1) as (rest & c2 & Hrun & Hfull & Hrem & Hcat).
      { subst c1. cbn [pendingBytes]. rewrite length_drop. lia. }
      rewrite Hrun. cbn [mbind option_bind].
      eexists _, c2. split; [reflexivity|]. repeat split; auto.
      * constructor; [|exact Hfull].
        unfold full_frame. cbn [fst]. rewrite length_take. lia.
      * unfold frames in *. cbn [map concat fst]. rewrite <- app_assoc, Hcat.
        subst c1. cbn [pendingBytes]. apply take_drop.
Qed.

Lemma onmessage_bytes_spec history c u8 :
  exists sent c',
    onmessage_bytes history c u8 = Some (sent, c') /\
    Forall full_frame sent /\
    length (pendingBytes c') < bytesPerChunk /\
    concat (frames sent) ++ pendingBytes c' = pendingBytes c ++ u8.
Proof.
  unfold onmessage_bytes.
  set (c1 := {| pendingBytes := pendingBytes c ++ u8; firstChunk := firstChunk c |}).
  destruct (drain_spec (length (pendingBytes c1)) history c1) as (sent & c' & H & ?); [lia|].
  exists sent, c'. split; [exact H|]. assumption.
Qed.

Lemma deliver_spec history blocks : forall c,
  length (pendingBytes c) < bytesPerChunk ->
  exists sent c',
    deliver history c blocks = Some (sent, c') /\
    Forall full_frame sent /\
    length (pendingBytes c') < bytesPerChunk /\
    concat (frames sent) ++ pendingBytes c' = pendingBytes c ++ concat blocks.
Proof.
  induction blocks as [|u8 blocks IH]; intros c Hc; cbn [deliver].
  - exists [], c. cbn [frames map concat]. rewrite app_nil_r. repeat split; auto.
  - destruct (onmessage_bytes_spec history c u8) as (s1 & c1 & H1 & F1 & R1 & E1).
    destruct (IH c1 R1) as (s2 & c2 & H2 & F2 & R2 & E2).
    rewrite H1. cbn [mbind option_bind]. rewrite H2. cbn [mbind option_bind].
    exists (s1 ++ s2), c2. split; [reflexivity|]. repeat split; auto.
    + apply Forall_app; auto.
    + unfold frames in *. rewrite map_app, concat_app, <- app_assoc, E2.
      rewrite app_assoc, E1, <- app_assoc. reflexivity.
Qed.

(** Every [send] carries the base64 text of the frame cut off for it. *)
Lemma drain_encoded turns : forall history c sent c',
  drain turns history c = Some (sent, c') -> Forall encoded sent.
Proof.
  induction turns as [|turns IH]; intros history c sent c'; rewrite drain_eq;
    destruct (length (pendingBytes c) <? bytesPerChunk).
  - intros [= <- <-]. constructor.
  - discriminate.
  - intros [= <- <-]. constructor.
  - cbv zeta. unfold send_chunk.
    destruct (drain turns history _) as [[rest c2]|] eqn:Hrun; cbn [mbind option_bind];
      [|discriminate].
    intros [= <- <-]. constructor; [reflexivity|]. eapply IH, Hrun.
Qed.

Lemma deliver_encoded history blocks : forall c sent c',
  deliver history c blocks = Some (sent, c') -> Forall encoded sent.
Proof.
  induction blocks as [|u8 blocks IH]; intros c sent c'; cbn [deliver].
  - intros [= <- <-]. constructor.
  - destruct (onmessage_bytes history c u8) as [[s1 c1]|] eqn:H1;
      cbn [mbind option_bind]; [|discriminate].
    destruct (deliver history c1 blocks) as [[s2 c2]|] eqn:H2;
      cbn [mbind option_bind]; [|discriminate].
    intros [= <- <-]. apply Forall_app. split.
    + unfold onmessage_bytes in H1. eapply drain_encoded, H1.
    + eapply IH, H2.
Qed.

(** Every [send] gives the target rate as the sample rate. *)
Lemma drain_rate turns : forall history c sent c',
  drain turns history c = Some (sent, c') ->
  Forall (fun a => sampleRate (snd a) = targetSampleRate) sent.
Proof.
  induction turns as [|turns IH]; intros history c sent c'; rewrite drain_eq;
    destruct (length (pendingBytes c) <? bytesPerChunk).
  - intros [= <- <-]. constructor.
  - discriminate.
  - intros [= <- <-]. constructor.
  - cbv zeta. unfold send_chunk.
    destruct (drain turns history _) as [[rest c2]|] eqn:Hrun; cbn [mbind option_bind];
      [|discriminate].
    intros [= <- <-]. constructor; [reflexivity|]. eapply IH, Hrun.
Qed.

Lemma deliver_rate history blocks : forall c sent c',
  deliver history c blocks = Some (sent, c') ->
  Forall (fun a => sampleRate (snd a) = targetSampleRate) sent.
Proof.
  induction blocks as [|u8 blocks IH]; intros c sent c'; cbn [deliver].
  - intros [= <- <-]. constructor.
  - destruct (onmessage_bytes history c u8) as [[s1 c1]|] eqn:H1;
      cbn [mbind option_bind]; [|discriminate].
    destruct (deliver history c1 blocks) as [[s2 c2]|] eqn:H2;
      cbn [mbind option_bind]; [|discriminate].
    intros [= <- <-]. apply Forall_app. split.
    + unfold onmessage_bytes in H1. eapply drain_rate, H1.
    + eapply IH, H2.
Qed.

(** What [connection.send] is given for every frame: the base64 text of
    the frame's bytes, and the target rate. *)
Lemma payloads sent :
  Forall encoded sent ->
  Forall (fun a => sampleRate (snd a) = targetSampleRate) sent ->
  Forall (fun a => audioBase64 (snd a) = bytesToBase64 (new_Uint8Array (fst a)) /\
                   sampleRate (snd a) = 16000%Z) sent.
Proof.
  intros He Hr. induction He as [|a sent Ha _ IH]; [constructor|].
  apply Forall_cons in Hr as [Hr1 Hr]. constructor; [|apply IH, Hr].
  split; [exact Ha | exact Hr1].
Qed.

Lemma full_frames_length sent :
  Forall full_frame sent -> length (concat (frames sent)) = length sent * bytesPerChunk.
Proof.
  induction 1 as [|a sent Ha _ IH]; [reflexivity|].
  unfold frames in *. cbn [map concat length]. rewrite length_app, IH, Ha. lia.
Qed.

(** C3. Whatever byte blocks the message handler is given, one call each,
    starting from the empty buffer: it has called [connection.send]
    exactly [total / 6400] times, each time for a frame of 6400 bytes cut
    off the front of the buffer and with, as its argument, the base64 text
    of that frame's bytes and the sample rate 16000; it keeps
    [total mod 6400] bytes pending; and the frames in the order sent,
    followed by the pending bytes, are the blocks in the order received. *)
Theorem chunker_frames_and_remainder :
  forall (history : list TranscriptLine) (blocks : list Uint8Array),
    exists sent c',
      deliver history initial_chunker blocks = Some (sent, c') /\
      Z.of_nat bytesPerChunk = 6400%Z /\
      length sent = length (concat blocks) / bytesPerChunk /\
      Forall (fun a => length (fst a) = bytesPerChunk) sent /\
      Forall (fun a => audioBase64 (snd a) = bytesToBase64 (new_Uint8Array (fst a)) /\
                       sampleRate (snd a) = 16000%Z) sent /\
      length (pendingBytes c') = length (concat blocks) mod bytesPerChunk /\
      concat (map fst sent) ++ pendingBytes c' = concat blocks.
Proof.
  intros history blocks.
  pose proof bytesPerChunk_pos as Hpos.
  destruct (deliver_spec history blocks initial_chunker) as (sent & c' & Hrun & Hfull & Hrem & Hcat).
  { exact Hpos. }
  cbn [initial_chunker pendingBytes app] in Hcat.
  exists sent, c'. split; [exact Hrun|]. split; [exact bytesPerChunk_value|].
  assert (Hlen : length (concat blocks) =
                 bytesPerChunk * length sent + length (pendingBytes c')).
  { rewrite <- Hcat, length_app, full_frames_length by exact Hfull. lia. }
  split; [|split; [|split; [|split]]].
  - eapply Nat.div_unique; [|exact Hlen]. exact Hrem.
  - exact Hfull.
  - apply payloads; [eapply deliver_encoded, Hrun | eapply deliver_rate, Hrun].
  - eapply Nat.mod_unique; [|exact Hlen]. exact Hrem.
  - exact Hcat.
Qed.

(** Blocks of 6399, 2 and 12800 bytes: three frames go out, one byte
    stays, and only the first [send] carries the previous text. *)
Example three_blocks :
  (fun r => match r with
            | Some (sent, c) =>
                Some (map (fun a => (Z.of_nat (length (fst a)), previousText (snd a))) sent,
                      pendingBytes c, firstChunk c)
            | None => None
            end)
    (deliver [ {| id := str "1-a"; text := str "hi"; createdAt := 1%Z;
                  kind := kind_committed |} ]
             initial_chunker
             [replicate (Z.to_nat 6399) 1%Z; replicate 2 2%Z; replicate (Z.to_nat 12800) 3%Z])
  = Some ([(6400%Z, Some (str "hi")); (6400%Z, None); (6400%Z, None)], [3%Z], false).
Proof. vm_compute. reflexivity. Qed.

End Chunker.

(* --------------------------------------------------------------------- *)
(** ** The resampler                                                      *)
(* --------------------------------------------------------------------- *)

Section Resampler.
Import Scribe.

Lemma ToInt16_range a : int16 (ToInt16 a).
Proof.
  unfold int16, ToInt16. destruct a as [| |q]; try lia.
  pose proof (Z.mod_pos_bound (Qtrunc q) 65536 ltac:(lia)).
  destruct (Z.leb_spec 32768 (Qtrunc q mod 65536)); lia.
Qed.

Lemma fill_length n body : forall out, length (fill n body out) = length out.
Proof.
  unfold fill. generalize 0%nat.
  induction n as [|n IH]; intros start out; cbn [seq foldl]; [reflexivity|].
  rewrite IH. unfold typed_set. apply length_insert.
Qed.

Lemma fill_int16 n body :
  (forall i, int16 (body i)) ->
  forall out, Forall int16 out -> Forall int16 (fill n body out).
Proof.
  intros Hbody. unfold fill. generalize 0%nat.
  induction n as [|n IH]; intros start out Hout; cbn [seq foldl]; [exact Hout|].
  apply IH. unfold typed_set. apply Forall_insert; auto.
Qed.

Lemma new_Int16Array_zeros len out :
  new_Int16Array len = Returns out -> out = replicate (length out) 0.
Proof.
  unfold new_Int16Array. destruct (ToIndex len) as [n|e]; cbn [bind]; [|discriminate].
  intros [= <-]. rewrite length_replicate. reflexivity.
Qed.

Lemma new_Int16Array_int16 len out :
  new_Int16Array len = Returns out -> Forall int16 out.
Proof.
  intros H. rewrite (new_Int16Array_zeros _ _ H).
  apply Forall_replicate. unfold int16. lia.
Qed.

Lemma new_Int16Array_throws len e :
  new_Int16Array len = Throws e -> e = RangeError.
Proof.
  unfold new_Int16Array, ToIndex.
  destruct len as [| |q]; cbn [bind]; try discriminate; try congruence.
  destruct (_ && _); cbn [bind]; [discriminate | congruence].
Qed.

(** Whatever the input and the rates: what is returned holds 16-bit
    samples only, and nothing but a RangeError is thrown. *)
Lemma downsample_int16_or_RangeError input inputSampleRate outputSampleRate :
  match downsampleFloat32ToInt16PCM input inputSampleRate outputSampleRate with
  | Returns out => Forall int16 out
  | Throws e => e = RangeError
  end.
Proof.
  unfold downsampleFloat32ToInt16PCM.
  destruct (num_eq outputSampleRate inputSampleRate).
  - destruct (new_Int16Array _) as [out|e] eqn:E; cbn [bind].
    + apply fill_int16; [intros i; apply ToInt16_range | eapply new_Int16Array_int16, E].
    + eapply new_Int16Array_throws, E.
  - destruct (new_Int16Array _) as [out|e] eqn:E; cbn [bind].
    + apply fill_int16; [intros i; apply ToInt16_range | eapply new_Int16Array_int16, E].
    + eapply new_Int16Array_throws, E.
Qed.

Lemma Qtrunc_inject_Z k : Qtrunc (inject_Z k) = k.
Proof. unfold Qtrunc, inject_Z. cbn [Qnum Qden]. apply Z.quot_1_r. Qed.

Lemma num_lt_num a b : num_lt (num a) (num b) = (a <? b).
Proof.
  unfold num_lt, num, Qle_bool, inject_Z. cbn [Qnum Qden].
  rewrite !Z.mul_1_r. destruct (Z.leb_spec b a), (Z.ltb_spec a b); auto; lia.
Qed.

Lemma Math_max_num a b : Math_max (num a) (num b) = num (Z.max a b).
Proof.
  unfold Math_max. change (num a) with (Fin (inject_Z a)) at 1.
  change (num b) with (Fin (inject_Z b)) at 1.
  cbv iota. rewrite num_lt_num.
  destruct (Z.ltb_spec a b); f_equal; lia.
Qed.

Lemma ToIndex_num k :
  ToIndex (num k) =
  if (0 <=? k) && (k <=? MAX_SAFE_INTEGER) then Returns (Z.to_nat k) else Throws RangeError.
Proof. unfold ToIndex, num. rewrite Qtrunc_inject_Z. reflexivity. Qed.

Lemma new_Int16Array_num k :
  0 <= k <= MAX_SAFE_INTEGER ->
  new_Int16Array (num k) = Returns (replicate (Z.to_nat k) 0).
Proof.
  intros Hk. unfold new_Int16Array. rewrite ToIndex_num.
  destruct (Z.leb_spec 0 k), (Z.leb_spec k MAX_SAFE_INTEGER); try lia. reflexivity.
Qed.

Lemma Qsign_pos q : (0 < q)%Q -> Qsign q = Gt.
Proof.
  unfold Qlt, Qsign. cbn [Qnum Qden]. intros H. apply Z.compare_gt_iff. lia.
Qed.

(** The length the interpolating branch asks for. *)
Lemma requested_length N p q :
  (0 < p)%Q -> (0 < q)%Q ->
  Math_max (num 1)
    (Math_round (num_div (num (Z.of_nat N)) (num_div (Fin p) (Fin q)))) =
  num (Z.max 1 (rounded_length N p q)).
Proof.
  intros Hp Hq.
  assert (Hr : (0 < Qred (p / q))%Q).
  { rewrite Qred_correct. apply Qlt_shift_div_l; [exact Hq|]. rewrite Qmult_0_l. exact Hp. }
  unfold num_div at 2. rewrite (Qsign_pos q Hq).
  unfold num at 2. unfold num_div. rewrite (Qsign_pos _ Hr).
  unfold Math_round. rewrite Math_max_num. f_equal. f_equal.
  unfold rounded_length. apply Qfloor_comp.
  rewrite !Qred_correct. field. split; intros E; rewrite E in *.
  - apply (Qlt_irrefl 0 Hp).
  - apply (Qlt_irrefl 0 Hq).
Qed.

Lemma rounded_length_same N p q :
  (0 < p)%Q -> (q == p)%Q -> rounded_length N p q = Z.of_nat N.
Proof.
  intros Hp E. unfold rounded_length.
  assert (H : (inject_Z (Z.of_nat N) * q / p + (1 # 2) == (2 * Z.of_nat N + 1) # 2)%Q).
  { rewrite E. rewrite (Qmake_Qdiv (2 * Z.of_nat N + 1) 2).
    rewrite inject_Z_plus, inject_Z_mult. field.
    intros E'. rewrite E' in Hp. apply (Qlt_irrefl 0 Hp). }
  rewrite (Qfloor_comp _ _ H). unfold Qfloor.
  symmetry. apply Z.div_unique with (r := 1); lia.
Qed.

Lemma rounded_length_nonneg N p q :
  (0 < p)%Q -> (0 < q)%Q -> 0 <= rounded_length N p q.
Proof.
  intros Hp Hq. unfold rounded_length.
  change 0 with (Qfloor 0). apply Qfloor_resp_le.
  apply Qle_trans with (inject_Z (Z.of_nat N) * q / p)%Q.
  - apply Qle_shift_div_l; [exact Hp|]. rewrite Qmult_0_l.
    apply Qmult_le_0_compat; [|apply Qlt_le_weak, Hq].
    change 0%Q with (inject_Z 0). rewrite <- Zle_Qle. lia.
  - rewrite <- (Qplus_0_r (inject_Z (Z.of_nat N) * q / p)) at 1.
    apply Qplus_le_r. discriminate.
Qed.

(** For positive rates, when the length the code asks for passes the
    constructor's own check, what is returned has that length, and its
    samples all lie in the signed 16-bit range. *)
Lemma downsample_returns input p q :
  (0 < p)%Q -> (0 < q)%Q ->
  rounded_length (length input) p q <= MAX_SAFE_INTEGER ->
  exists out,
    downsampleFloat32ToInt16PCM input (Fin p) (Fin q) = Returns out /\
    Forall int16 out /\
    Z.of_nat (length out) =
      if Qeq_bool q p then Z.of_nat (length input)
      else Z.max 1 (rounded_length (length input) p q).
Proof.
  intros Hp Hq Hfit.
  pose proof (downsample_int16_or_RangeError input (Fin p) (Fin q)) as Hrange.
  unfold downsampleFloat32ToInt16PCM in *. cbn [num_eq] in *.
  destruct (Qeq_bool q p) eqn:E.
  - apply Qeq_bool_iff in E. rewrite (rounded_length_same _ p q Hp E) in Hfit.
    rewrite new_Int16Array_num in * by lia. cbn [bind] in *.
    eexists. split; [reflexivity|]. split; [exact Hrange|].
    rewrite fill_length, length_replicate. lia.
  - pose proof (rounded_length_nonneg (length input) p q Hp Hq) as Hnn.
    assert (1 <= MAX_SAFE_INTEGER) by (vm_compute; discriminate).
    rewrite requested_length in * by assumption.
    rewrite new_Int16Array_num in * by lia. cbn [bind] in *.
    eexists. split; [reflexivity|]. split; [exact Hrange|].
    rewrite fill_length, length_replicate. lia.
Qed.

Lemma rounded_length_thirds N :
  rounded_length N (inject_Z 48000) (inject_Z 16000) = (Z.of_nat N + 1) / 3.
Proof.
  unfold rounded_length.
  assert (H : (inject_Z (Z.of_nat N) * inject_Z 16000 / inject_Z 48000 + (1 # 2)
               == (2 * Z.of_nat N + 3) # 6)%Q).
  { rewrite (Qmake_Qdiv (2 * Z.of_nat N + 3) 6).
    rewrite inject_Z_plus, inject_Z_mult. field. }
  rewrite (Qfloor_comp _ _ H). unfold Qfloor. clear H.
  Z.div_mod_to_equations. lia.
Qed.

(** At equal rates: full scale both ways, half scale, NaN, and values
    beyond the unit interval. *)
Example same_rate_samples :
  downsampleFloat32ToInt16PCM
    [Fin 1; Fin (-1); Fin (1 # 2); NaN; Fin 5; Inf true] (num 16000) (num 16000)
  = Returns [32767; -32768; 16383; 0; 32767; -32768].
Proof. vm_compute. reflexivity. Qed.

(** From 48 kHz: every third sample, and one sample out of none. *)
Example one_in_three :
  downsampleFloat32ToInt16PCM
    [Fin 1; Fin 0; Fin 0; Fin (-1); Fin 0; Fin 0] (num 48000) (num 16000)
  = Returns [32767; -32768] /\
  downsampleFloat32ToInt16PCM [] (num 48000) (num 16000) = Returns [0].
Proof. vm_compute. split; reflexivity. Qed.

(** C4, as the code has it. From 48 kHz to 16 kHz, an input of [N] samples
    (a typed array, so [N] is at most 2^53 - 1) gives an output of
    [max(1, round(N/3))] samples: [round(N/3)] as soon as [N] is at least 2,
    and one sample when [N] is 0 or 1. *)
Theorem downsample_48k_to_16k_length (input : Float32Array) :
  Z.of_nat (length input) <= MAX_SAFE_INTEGER ->
  exists out,
    downsampleFloat32ToInt16PCM input (num 48000) (num 16000) = Returns out /\
    (2 <= length input ->
       rounds_to (Z.of_nat (length input) # 3) (Z.of_nat (length out)))%nat /\
    (length input < 2 -> length out = 1)%nat.
Proof.
  intros Hlen.
  destruct (downsample_returns input (inject_Z 48000) (inject_Z 16000))
    as (out & Hrun & _ & Hout); [reflexivity | reflexivity | |].
  { rewrite rounded_length_thirds. Z.div_mod_to_equations. lia. }
  exists out. split; [exact Hrun|].
  rewrite rounded_length_thirds in Hout.
  change (Qeq_bool (inject_Z 16000) (inject_Z 48000)) with false in Hout.
  split.
  - intros HN. rewrite Hout.
    unfold rounds_to, Qle, Qlt, Qminus, Qplus, Qopp, inject_Z. cbn [Qnum Qden].
    Z.div_mod_to_equations. lia.
  - intros HN. Z.div_mod_to_equations. lia.
Qed.

(** The theorem at an input of seven samples: two come out. *)
Lemma downsample_48k_to_16k_length_witness :
  Z.of_nat 7 <= MAX_SAFE_INTEGER /\
  exists out,
    downsampleFloat32ToInt16PCM (replicate 7 (num 0)) (num 48000) (num 16000)
      = Returns out /\
    (2 <= 7 -> rounds_to (Z.of_nat 7 # 3) (Z.of_nat (length out)))%nat /\
    (7 < 2 -> length out = 1)%nat.
Proof.
  assert (H : Z.of_nat 7 <= MAX_SAFE_INTEGER) by (apply Z.leb_le; reflexivity).
  split; [exact H|].
  exact (downsample_48k_to_16k_length (replicate 7 (num 0)) H).
Defined.

(** C4 as stated fails on the empty input: [round(0/3)] is 0, and the
    output has one sample. *)
Lemma downsample_48k_to_16k_empty_input :
  exists out,
    downsampleFloat32ToInt16PCM [] (num 48000) (num 16000) = Returns out /\
    length out = 1%nat /\
    ~ rounds_to (Z.of_nat 0 # 3) (Z.of_nat (length out)).
Proof.
  exists [0]. split; [vm_compute; reflexivity|]. split; [reflexivity|].
  unfold rounds_to, Qle, Qlt. cbn. lia.
Qed.





End Resampler.

(* --------------------------------------------------------------------- *)
(** ** The transcript events                                              *)
(* --------------------------------------------------------------------- *)

Section Events.
Import Scribe.

(** An event whose text is absent, empty or white space only changes
    nothing. *)
Lemma committed_event_blank r data_text s :
  trim (or_string data_text []) = [] ->
  on_event r (COMMITTED_TRANSCRIPT data_text) s = s.
Proof. intros H. cbn [on_event]. rewrite H. reflexivity. Qed.

(** C5, as the code has it. A committed_transcript event whose text,
    trimmed, is not empty appends exactly one line to the history: the
    trimmed text, kind "committed", the id made of the clock reading, a dash
    and the random string, the second clock reading as timestamp; and the
    current partial transcript becomes the empty string, the connection
    flags and the last error staying as they are.  An event whose text is
    absent, empty or white space only changes nothing. *)
Theorem committed_event_appends_trimmed_line
    (r : readings) (data_text : option jsstring) (s : state) :
  (trim (or_string data_text []) <> [] ->
   committed (on_event r (COMMITTED_TRANSCRIPT data_text) s) =
     committed s ++
       [ {| id := decimal (now_id r) ++ str "-" ++ random_hex r;
            text := trim (or_string data_text []);
            createdAt := now_createdAt r;
            kind := kind_committed |} ] /\
   partialTranscript (on_event r (COMMITTED_TRANSCRIPT data_text) s) = [] /\
   isConnected (on_event r (COMMITTED_TRANSCRIPT data_text) s) = isConnected s /\
   isConnecting (on_event r (COMMITTED_TRANSCRIPT data_text) s) = isConnecting s /\
   lastError (on_event r (COMMITTED_TRANSCRIPT data_text) s) = lastError s) /\
  (trim (or_string data_text []) = [] ->
   on_event r (COMMITTED_TRANSCRIPT data_text) s = s).
Proof.
  split; [|apply committed_event_blank].
  intros Htext. cbn [on_event].
  destruct (trim (or_string data_text [])) as [|c t]; [contradiction|].
  repeat split.
Qed.

Lemma committed_event_appends_trimmed_line_witness :
  trim (or_string (Some (str " hello ")) []) <> [] /\
  committed (on_event at_noon (COMMITTED_TRANSCRIPT (Some (str " hello "))) live) =
    [ {| id := str "1700000000000-9f3a"; text := str "hello";
         createdAt := 1700000000001; kind := kind_committed |} ] /\
  partialTranscript (on_event at_noon (COMMITTED_TRANSCRIPT (Some (str " hello "))) live) = [] /\
  on_event at_noon (COMMITTED_TRANSCRIPT None) live = live.
Proof.
  assert (H : trim (or_string (Some (str " hello ")) []) <> []) by (vm_compute; discriminate).
  split; [exact H|].
  destruct (proj1 (committed_event_appends_trimmed_line at_noon (Some (str " hello ")) live) H)
    as (Hc & Hp & _).
  split; [exact Hc|]. split; [exact Hp|].
  exact (proj2 (committed_event_appends_trimmed_line at_noon None live) eq_refl).
Defined.

(** C5 as stated fails on a text of white space: while connected, with a
    partial transcript on display, the event appends no line and the
    partial transcript stays. *)
Lemma committed_event_whitespace_ignored :
  isConnected live = true /\
  committed (on_event at_noon (COMMITTED_TRANSCRIPT (Some (str "   "))) live)
    = committed live /\
  partialTranscript (on_event at_noon (COMMITTED_TRANSCRIPT (Some (str "   "))) live)
    <> [].
Proof. vm_compute. repeat split; discriminate. Qed.

End Events.

(* --------------------------------------------------------------------- *)
(** ** The committed-translation effect                                   *)
(* --------------------------------------------------------------------- *)

Section Effect.
Import Scribe Page.

(** The ways a run of the effect can go. *)
Lemma committed_effect_cases r translatedIds :
  (last (scribe_committed r) = None /\
   committed_effect r translatedIds = (translatedIds, Nothing)) \/
  (exists l,
     last (scribe_committed r) = Some l /\
     (id l ∈ translatedIds) /\
     committed_effect r translatedIds = (translatedIds, Nothing)) \/
  (exists l,
     last (scribe_committed r) = Some l /\
     (id l ∉ translatedIds) /\
     fst (committed_effect r translatedIds) = translatedIds ∪ {[ id l ]} /\
     source_of (snd (committed_effect r translatedIds)) = Some (id l)).
Proof.
  unfold committed_effect.
  destruct (last (scribe_committed r)) as [l|]; [|left; split; reflexivity].
  right. case_bool_decide as Hin.
  - left. exists l. repeat split; auto.
  - right. exists l. destruct (_ && _); repeat split; auto.
Qed.

(** Once the effect has run, a run on a history with the same last line
    starts nothing and leaves the set as it is. *)
Lemma committed_effect_rerun r r' translatedIds :
  last (scribe_committed r') = last (scribe_committed r) ->
  committed_effect r' (fst (committed_effect r translatedIds)) =
    (fst (committed_effect r translatedIds), Nothing).
Proof.
  intros Hlast.
  destruct (committed_effect_cases r translatedIds)
    as [(Hl & E) | [(l & Hl & Hin & E) | (l & Hl & Hnew & Hids & _)]].
  - rewrite E. cbn [fst]. unfold committed_effect. rewrite Hlast, Hl. reflexivity.
  - rewrite E. cbn [fst]. unfold committed_effect. rewrite Hlast, Hl.
    rewrite bool_decide_eq_true_2 by exact Hin. reflexivity.
  - rewrite Hids. unfold committed_effect. rewrite Hlast, Hl.
    rewrite bool_decide_eq_true_2 by (apply elem_of_union_r, elem_of_singleton; reflexivity).
    reflexivity.
Qed.

Lemma run_effects_once rs : forall (translatedIds : gset jsstring) (x : jsstring),
  (x ∈ translatedIds -> started_for x (snd (run_effects rs translatedIds)) = []) /\
  (length (started_for x (snd (run_effects rs translatedIds))) <= 1)%nat.
Proof.
  induction rs as [|r rs IH]; intros ids x; cbn [run_effects].
  - split; [reflexivity | cbn; lia].
  - assert (Hcases :
      committed_effect r ids = (ids, Nothing) \/
      exists l, (id l ∉ ids) /\
        fst (committed_effect r ids) = ids ∪ {[ id l ]} /\
        source_of (snd (committed_effect r ids)) = Some (id l)).
    { destruct (committed_effect_cases r ids)
        as [(_ & E) | [(l & _ & _ & E) | (l & _ & Hnew & Hids & Hsrc)]]; eauto. }
    destruct Hcases as [E | (l & Hnew & Hids & Hsrc)].
    + rewrite E. destruct (run_effects rs ids) as [ids2 ws] eqn:R.
      cbn [snd]. unfold started_for. rewrite filter_cons_False by (cbn; discriminate).
      specialize (IH ids x). rewrite R in IH. exact IH.
    + destruct (committed_effect r ids) as [ids1 w] eqn:E. cbn [fst snd] in Hids, Hsrc.
      destruct (run_effects rs ids1) as [ids2 ws] eqn:R. cbn [snd].
      pose proof (IH ids1 x) as [IHin IHle]. rewrite R in IHin, IHle. cbn [snd] in IHin, IHle.
      unfold started_for in *.
      destruct (decide (id l = x)) as [Heq|Hne].
      * subst x. rewrite filter_cons_True by exact Hsrc.
        rewrite IHin by (rewrite Hids; apply elem_of_union_r, elem_of_singleton; reflexivity).
        split; [contradiction | cbn; lia].
      * rewrite filter_cons_False by (rewrite Hsrc; congruence).
        split; [|exact IHle]. intros Hx. apply IHin. rewrite Hids.
        apply elem_of_union_l, Hx.
Qed.

(** C6. When the selected input language is the selected output language
    and is not "auto", the effect, run on a history whose last line it has
    not seen yet, starts the mirror microtask and no request; the microtask
    appends one translated line whose text is the text of that line, and
    whose source id is its id. *)
Theorem same_language_mirrors_verbatim
    (r : render) (translatedIds : gset jsstring) (l : TranscriptLine) :
  last (scribe_committed r) = Some l ->
  (id l ∉ translatedIds) ->
  inputLang r = targetLang r ->
  inputLang r <> auto ->
  snd (committed_effect r translatedIds) = Mirror l /\
  requests (snd (committed_effect r translatedIds)) = [] /\
  forall (s : settled) (now : Z) (p : panel),
    exists t,
      translated (complete (snd (committed_effect r translatedIds)) s now p)
        = translated p ++ [t] /\
      t_text t = text l /\ sourceId t = id l.
Proof.
  intros Hlast Hnew Hsame Hauto.
  assert (E : snd (committed_effect r translatedIds) = Mirror l).
  { unfold committed_effect. rewrite Hlast.
    rewrite bool_decide_eq_false_2 by exact Hnew.
    unfold outLang. rewrite <- Hsame.
    destruct (inputLang r); [contradiction | reflexivity..]. }
  rewrite E. repeat split.
  intros s now p. eexists. cbn [complete mirror_microtask translated].
  split; [reflexivity|]. split; reflexivity.
Qed.

Lemma same_language_mirrors_verbatim_witness :
  snd (committed_effect english_to_english ∅) = Mirror hello /\
  requests (snd (committed_effect english_to_english ∅)) = [].
Proof.
  assert (H1 : last (scribe_committed english_to_english) = Some hello) by reflexivity.
  assert (H2 : id hello ∉ (∅ : gset jsstring)) by apply not_elem_of_empty.
  assert (H3 : inputLang english_to_english = targetLang english_to_english) by reflexivity.
  assert (H4 : inputLang english_to_english <> auto) by discriminate.
  destruct (same_language_mirrors_verbatim english_to_english ∅ hello H1 H2 H3 H4)
    as (Hm & Hr & _).
  split; [exact Hm | exact Hr].
Defined.

(** C7. Over any sequence of renders, starting from the empty set, the
    effect starts work (a request or a mirror) at most once for any one line
    id; and a run of the effect that follows a run on a history with the
    same last line starts nothing and leaves the set unchanged, the id being
    put in the set by the run that started the work. *)
Theorem translation_once_per_line_id :
  (forall (rs : list render) (x : jsstring),
     (length (started_for x (snd (run_effects rs ∅))) <= 1)%nat) /\
  (forall (r r' : render) (translatedIds : gset jsstring),
     last (scribe_committed r') = last (scribe_committed r) ->
     committed_effect r' (fst (committed_effect r translatedIds)) =
       (fst (committed_effect r translatedIds), Nothing)) /\
  (forall (r : render) (translatedIds : gset jsstring) (x : jsstring),
     source_of (snd (committed_effect r translatedIds)) = Some x ->
     x ∈ fst (committed_effect r translatedIds)).
Proof.
  split; [|split].
  - intros rs x. apply run_effects_once.
  - intros r r' ids. apply committed_effect_rerun.
  - intros r ids x Hx.
    destruct (committed_effect_cases r ids)
      as [(_ & E) | [(l & _ & _ & E) | (l & _ & _ & Hids & Hsrc)]].
    + rewrite E in Hx. discriminate.
    + rewrite E in Hx. discriminate.
    + rewrite Hids. rewrite Hsrc in Hx. injection Hx as <-.
      apply elem_of_union_r, elem_of_singleton. reflexivity.
Qed.

(** The effect runs, then runs again after the summary has changed. *)
Lemma translation_once_per_line_id_witness :
  committed_effect (auto_to_english [hello] (str "greetings"))
      (fst (committed_effect (auto_to_english [hello] []) ∅)) =
    (fst (committed_effect (auto_to_english [hello] []) ∅), Nothing) /\
  id hello ∈ fst (committed_effect (auto_to_english [hello] []) ∅).
Proof.
  destruct translation_once_per_line_id as (_ & Hrerun & Hin).
  split.
  - exact (Hrerun (auto_to_english [hello] []) (auto_to_english [hello] (str "greetings"))
             ∅ eq_refl).
  - exact (Hin (auto_to_english [hello] []) ∅ (id hello) eq_refl).
Defined.

(** *** The summary schedule *)

Lemma on_settled_summary l f o now p :
  p_summary (on_settled l f o now p) =
    match o with
    | Resolved res =>
        if f && negb (bool_decide (updatedSummary res = []))
        then updatedSummary res else p_summary p
    | Rejected => p_summary p
    end.
Proof.
  destruct o as [res|]; cbn [on_settled]; [|reflexivity].
  destruct (shouldIgnore res); [reflexivity|].
  destruct (trim (translation res)); reflexivity.
Qed.

(** What a step that sends a request looks like. *)
Lemma commit_step_request input target key a s :
  translated_by_request (snd (commit_step input target key a s)) ->
  exists f,
    f = ((length (p_summary (view s)) =? 0)%nat
         || (S (length (history s)) mod 4 =? 0)%nat) /\
    flag (snd (commit_step input target key a s)) = Some f /\
    history (fst (commit_step input target key a s)) = history s ++ [line a] /\
    view (fst (commit_step input target key a s)) =
      on_settled (line a) f (outcome a) (now a) (view s).
Proof.
  unfold commit_step, translated_by_request. cbv zeta. unfold committed_effect.
  cbn [scribe_committed summary inputLang targetLang].
  rewrite last_snoc, length_app, Nat.add_1_r. cbn [length].
  destruct (bool_decide _); cbn [snd flag]; [contradiction|].
  destruct (_ && _); cbn [snd flag]; [contradiction|].
  intros _. eexists. split; [reflexivity|]. cbn [fst history view complete a_updateSummary].
  repeat split.
Qed.

Lemma commit_step_flag input target key a s :
  bootstrapped s ->
  translated_by_request (snd (commit_step input target key a s)) ->
  flag (snd (commit_step input target key a s)) =
    Some (on_schedule (S (length (history s)))).
Proof.
  intros Hboot Hreq.
  destruct (commit_step_request input target key a s Hreq) as (f & Hf & Hflag & _).
  rewrite Hflag, Hf. f_equal. unfold on_schedule, bootstrapped in *.
  destruct (history s) as [|l0 h].
  - destruct Hboot as [_ Hb]. rewrite (Hb eq_refl). reflexivity.
  - destruct (p_summary (view s)) as [|c t].
    + destruct Hboot as [Hb _]. discriminate (Hb eq_refl).
    + reflexivity.
Qed.

Lemma commit_step_bootstrapped input target key a s :
  translated_by_request (snd (commit_step input target key a s)) ->
  update_answered (snd (commit_step input target key a s)) a ->
  bootstrapped (fst (commit_step input target key a s)) /\
  length (history (fst (commit_step input target key a s))) = S (length (history s)).
Proof.
  intros Hreq Hans.
  destruct (commit_step_request input target key a s Hreq) as (f & Hf & Hflag & Hh & Hv).
  unfold update_answered, bootstrapped in *.
  rewrite Hh, Hv, on_settled_summary, length_app, Nat.add_1_r. split; [|reflexivity].
  split; [|intros E; destruct (history s); discriminate E].
  intros Hempty. exfalso. rewrite Hflag in Hans.
  destruct f.
  - destruct (Hans eq_refl) as (res & Ho & Hne). rewrite Ho in Hempty.
    rewrite bool_decide_eq_false_2 in Hempty by exact Hne. contradiction.
  - symmetry in Hf. apply orb_false_iff in Hf as [Hlen _].
    apply Nat.eqb_neq in Hlen.
    destruct (outcome a); cbn [andb] in Hempty; rewrite Hempty in Hlen; contradiction.
Qed.

Lemma run_session_schedule input target key arrivals : forall s,
  bootstrapped s ->
  Forall translated_by_request (snd (run_session input target key arrivals s)) ->
  Forall2 update_answered (snd (run_session input target key arrivals s)) arrivals ->
  forall k w,
    snd (run_session input target key arrivals s) !! k = Some w ->
    flag w = Some (on_schedule (length (history s) + k + 1)).
Proof.
  induction arrivals as [|a rest IH]; intros s Hboot Hreq Hans k w Hk;
    cbn [run_session] in *.
  - discriminate.
  - destruct (commit_step input target key a s) as [s1 w1] eqn:E1.
    destruct (run_session input target key rest s1) as [s2 ws] eqn:E2.
    cbn [snd] in *.
    apply Forall_cons in Hreq as [Hreq1 Hreq].
    apply Forall2_cons in Hans as [Hans1 Hans].
    pose proof (commit_step_flag input target key a s Hboot) as Hflag.
    pose proof (commit_step_bootstrapped input target key a s) as Hnext.
    rewrite E1 in Hflag, Hnext. cbn [fst snd] in Hflag, Hnext.
    destruct (Hnext Hreq1 Hans1) as [Hboot1 Hlen1].
    destruct k as [|k]; cbn in Hk.
    + injection Hk as <-. rewrite Hflag by exact Hreq1.
      do 2 f_equal. lia.
    + specialize (IH s1 Hboot1). rewrite E2 in IH. cbn [snd] in IH.
      rewrite (IH Hreq Hans k w Hk). do 2 f_equal. lia.
Qed.

(** Lines with ids the ref has not seen, all different, under languages
    the same-language rule does not apply to: a request for every line. *)
Lemma fresh_lines_are_requested input target key arrivals : forall s,
  mirrors input target = false ->
  NoDup (map (fun a => id (line a)) arrivals) ->
  (forall a, a ∈ arrivals -> id (line a) ∉ ids s) ->
  Forall translated_by_request (snd (run_session input target key arrivals s)).
Proof.
  induction arrivals as [|a rest IH]; intros s Hm Hnd Hfresh; cbn [run_session].
  - constructor.
  - destruct (commit_step input target key a s) as [s1 w1] eqn:E1.
    destruct (run_session input target key rest s1) as [s2 ws] eqn:E2. cbn [snd].
    unfold commit_step in E1. cbv zeta in E1. unfold committed_effect in E1.
    cbn [scribe_committed summary inputLang targetLang outLang] in E1.
    rewrite last_snoc in E1.
    rewrite bool_decide_eq_false_2 in E1 by (apply Hfresh; left).
    unfold mirrors in Hm. unfold outLang in E1. cbn [targetLang inputLang] in E1.
    rewrite Hm in E1. injection E1 as Hs1 Hw1.
    cbn [map] in Hnd. apply NoDup_cons in Hnd as [Hhead Hnd].
    constructor.
    + rewrite <- Hw1. unfold translated_by_request. cbn [flag]. discriminate.
    + specialize (IH s1 Hm Hnd). rewrite E2 in IH. apply IH.
      intros b Hb. rewrite <- Hs1. cbn [ids].
      intros Hin. apply elem_of_union in Hin as [Hin|Hin].
      * apply (Hfresh b); [right; exact Hb | exact Hin].
      * apply elem_of_singleton in Hin. apply Hhead. rewrite <- Hin.
        apply (list_elem_of_fmap_2 (fun a => id (line a))). exact Hb.
Qed.

(** Under the same-language rule no request is sent, so no line carries
    the flag. *)
Lemma mirrored_lines_carry_no_flag input target key arrivals : forall s,
  mirrors input target = true ->
  Forall (fun w => flag w = None) (snd (run_session input target key arrivals s)).
Proof.
  induction arrivals as [|a rest IH]; intros s Hm; cbn [run_session].
  - constructor.
  - destruct (commit_step input target key a s) as [s1 w1] eqn:E1.
    specialize (IH s1 Hm).
    destruct (run_session input target key rest s1) as [s2 ws]. cbn [snd] in *.
    constructor; [|exact IH].
    unfold commit_step in E1. cbv zeta in E1. unfold committed_effect in E1.
    cbn [scribe_committed summary inputLang targetLang] in E1.
    rewrite last_snoc in E1. unfold mirrors in Hm. unfold outLang in E1.
    cbn [targetLang inputLang] in E1. rewrite Hm in E1.
    destruct (bool_decide _); injection E1 as <- <-; reflexivity.
Qed.

Lemma run_page_arrivals input target key arrivals : forall s,
  run_page input target key (map Arrives arrivals) s =
  run_session input target key arrivals s.
Proof.
  induction arrivals as [|a rest IH]; intros s; cbn [map run_page run_session page_step];
    [reflexivity|].
  destruct (commit_step input target key a s) as [s1 w1]. rewrite IH. reflexivity.
Qed.

(** C9, as the code has it. In a run of the page in which neither "Clear
    summary" nor "Clear all" is clicked: committed lines arrive one at a
    time; on each arrival the effect runs on the history so far, and what
    it started completes before the next line arrives.  If the effect sends
    a translation request for every line, and every request that asks for a
    summary update is answered with a summary that is not empty, then the
    request for the line of index [i] (counting from 1) carries
    [updateSummary = true] exactly when [i] is 1 or a multiple of 4. *)
Theorem summary_update_schedule
    (input target : LanguageOption) (key : jsstring) (arrivals : list arrival) :
  Forall translated_by_request
    (snd (run_page input target key (map Arrives arrivals) initial_session)) ->
  Forall2 update_answered
    (snd (run_page input target key (map Arrives arrivals) initial_session)) arrivals ->
  forall (i : nat) (w : started),
    snd (run_page input target key (map Arrives arrivals) initial_session) !! i = Some w ->
    flag w = Some (on_schedule (i + 1)) /\
    (flag w = Some true <-> (i + 1 = 1 \/ (i + 1) mod 4 = 0)%nat).
Proof.
  rewrite run_page_arrivals. intros Hreq Hans i w Hi.
  assert (Hflag : flag w = Some (on_schedule (i + 1))).
  { apply (run_session_schedule input target key arrivals initial_session); auto.
    split; reflexivity. }
  split; [exact Hflag|]. rewrite Hflag. unfold on_schedule. split.
  - intros [= H]. apply orb_true_iff in H as [H|H]; apply Nat.eqb_eq in H; auto.
  - intros [H|H]; f_equal; apply orb_true_iff; [left|right]; apply Nat.eqb_eq; exact H.
Qed.

(** Five lines from "auto" to English: the flag goes up on the first and on
    the fourth. *)
Example five_lines_flags :
  map flag (snd (run_page auto en [] (map Arrives five_lines) initial_session)) =
    [Some true; Some false; Some false; Some true; Some false].
Proof. vm_compute. reflexivity. Qed.

Lemma summary_update_schedule_witness :
  Forall translated_by_request
    (snd (run_page auto en [] (map Arrives five_lines) initial_session)) /\
  Forall2 update_answered
    (snd (run_page auto en [] (map Arrives five_lines) initial_session)) five_lines /\
  forall (i : nat) (w : started),
    snd (run_page auto en [] (map Arrives five_lines) initial_session) !! i = Some w ->
    flag w = Some (on_schedule (i + 1)) /\
    (flag w = Some true <-> (i + 1 = 1 \/ (i + 1) mod 4 = 0)%nat).
Proof.
  assert (H1 : Forall translated_by_request
                 (snd (run_page auto en [] (map Arrives five_lines) initial_session))).
  { vm_compute. repeat constructor; discriminate. }
  assert (H2 : Forall2 update_answered
                 (snd (run_page auto en [] (map Arrives five_lines) initial_session))
                 five_lines).
  { vm_compute. repeat constructor; intros _; eexists; (split; [reflexivity | discriminate]). }
  split; [exact H1|]. split; [exact H2|].
  exact (summary_update_schedule auto en [] five_lines H1 H2).
Defined.

(** C9 as stated fails in a run with a click.  With "Clear summary" clicked
    after the first line, every line is still requested in order and every
    update is answered with a summary, yet the request for line 2 asks for
    a summary update.  With "Clear all" clicked after the first line, the
    summary stays and the history starts again: the next line's request
    does not ask for an update, and of the lines committed in the run it is
    the fifth whose request does. *)
Lemma a_click_moves_the_schedule :
  map flag
    (snd (run_page auto en []
            [Arrives (answered_arrival 1 "a"); ClearSummary Rejected 2;
             Arrives (answered_arrival 3 "b")] initial_session))
    = [Some true; None; Some true] /\
  on_schedule 2 = false /\
  map flag
    (snd (run_page auto en []
            [Arrives (answered_arrival 1 "a"); ClearAll Rejected 2;
             Arrives (answered_arrival 3 "b"); Arrives (answered_arrival 4 "c");
             Arrives (answered_arrival 5 "d"); Arrives (answered_arrival 6 "e")]
            initial_session))
    = [Some true; None; Some false; Some false; Some false; Some true] /\
  on_schedule 5 = false.
Proof. vm_compute. repeat split. Qed.

End Effect.

(* --------------------------------------------------------------------- *)
(** ** The translate route                                                *)
(* --------------------------------------------------------------------- *)

Section Translate.
Import Http TranslateRoute.

(** [JSON.parse] on a few texts. *)
Example parse_object :
  JSON_parse (json_text " {'a': [1, 2.5e1, true, null], 'b': {'c': 'x\n'}} ") =
    Returns (JObject [(str "a", JArray [JNumber (num 1); JNumber (num 25);
                                       JBool true; JNull]);
                      (str "b", JObject [(str "c", JString [120%N; 10%N])])]).
Proof. vm_compute. reflexivity. Qed.

Example parse_rejects :
  map JSON_parse
    [[]; str "{"; str "[1,]"; str "01"; str "{a:1}"; str "nul"; str "1 2";
     json_text "{'a':1,}"; json_text "'open"; str "Sure! Here it is."]
  = replicate 10 (Throws SyntaxError).
Proof. vm_compute. reflexivity. Qed.

(** When [POST] calls upstream, its completion is [answer] on the response. *)
Lemma POST_answer env req fetch call :
  fst (POST env req fetch) = [call] ->
  exists payload,
    JSON_parse (req_body req) = Returns payload /\
    snd (POST env req fetch) = (let* resp := fetch call in answer payload resp).
Proof.
  unfold POST.
  destruct (getOpenAIKey env req) as [apiKey|]; [|discriminate].
  destruct (JSON_parse (req_body req)) as [payload|]; [|discriminate].
  destruct (let* t := get payload (str "text") in trimmed_text t) as [[|c text]|];
    try discriminate.
  destruct (upstream_call env apiKey payload (c :: text)) as [call'|]; [|discriminate].
  cbn [fst snd]. intros [= ->]. exists payload. split; reflexivity.
Qed.

Lemma answer_content payload resp data content :
  ok resp = true ->
  JSON_parse (up_body resp) = Returns data ->
  message_content data = Returns (Some (JString content)) ->
  content <> [] ->
  answer payload resp =
    match JSON_parse content with
    | Throws _ =>
        Returns {| status := 502;
                   body := JObject
                     [(str "error", JString (str "Model response was not valid JSON."));
                      (str "raw", JString content)] |}
    | Returns parsed =>
        let* out := normalize payload parsed in
        Returns {| status := 200; body := out |}
    end.
Proof.
  intros Hok Hdata Hcontent Hne. unfold answer.
  rewrite Hok, Hdata. cbn [negb bind]. rewrite Hcontent. cbn [bind].
  destruct content as [|c r]; [contradiction|]. reflexivity.
Qed.

Lemma take_800_length {A} (l : list A) : (length (take 800 l) <= 800)%nat.
Proof. rewrite length_take. apply Nat.le_min_l. Qed.

(** The answer built from parsed content never carries a summary longer
    than 800. *)
Lemma normalize_summary_bounded payload parsed out :
  normalize payload parsed = Returns out ->
  exists ms, out = JObject ms /\ summary_bounded ms.
Proof.
  unfold normalize.
  destruct (get parsed (str "detectedLanguage")) as [dl|]; cbn [bind]; [|discriminate].
  destruct (get parsed (str "shouldIgnore")) as [si|]; cbn [bind]; [|discriminate].
  destruct (get parsed (str "translation")) as [tr|]; cbn [bind]; [|discriminate].
  destruct (get parsed (str "updatedSummary")) as [us|]; cbn [bind]; [|discriminate].
  set (summary := match us with
                  | Some (JString s) => Returns (JString (slice_to 800 s))
                  | _ => _
                  end).
  destruct summary as [sm|] eqn:Hs; cbn [bind]; [|discriminate].
  intros [= <-]. eexists. split; [reflexivity|].
  unfold summary_bounded.
  change (member _ (str "updatedSummary")) with (Some sm).
  subst summary.
  assert (Hfallback : forall own,
            sliced_summary own = Returns sm ->
            match sm with
            | JString s => (length s <= 800)%nat
            | JArray items => (length items <= 800)%nat
            | _ => False
            end).
  { intros own. unfold sliced_summary.
    destruct (or_else own (JString [])); try discriminate;
      intros [= <-]; apply take_800_length. }
  destruct us as [[| | |s| |]|];
    try (destruct (get payload (str "summary")) as [own|]; cbn [bind] in Hs;
         [exact (Hfallback own Hs) | discriminate]).
  injection Hs as <-. apply take_800_length.
Qed.

(** With an object for content and a textual summary in the request, the
    answer is built, and a [translation] that is absent comes out empty. *)
Lemma normalize_missing_translation payload ms :
  summary_is_text payload ->
  member ms (str "translation") = None ->
  exists out,
    normalize payload (JObject ms) = Returns (JObject out) /\
    member out (str "translation") = Some (JString []).
Proof.
  intros (pm & -> & Hsum) Hmiss. unfold normalize. cbn [get bind]. rewrite Hmiss.
  assert (Hs : exists sm,
    match member ms (str "updatedSummary") with
    | Some (JString s) => Returns (JString (slice_to 800 s))
    | _ => sliced_summary (member pm (str "summary"))
    end = Returns sm).
  { assert (Hown : exists sm, sliced_summary (member pm (str "summary")) = Returns sm).
    { destruct Hsum as [-> | (t & ->)]; [eexists; reflexivity|].
      unfold sliced_summary, or_else, truthy.
      destruct (bool_decide (t = [])); eexists; reflexivity. }
    destruct (member ms (str "updatedSummary")) as [[| | |s| |]|]; try exact Hown.
    eexists; reflexivity. }
  destruct Hs as (sm & Hs). rewrite Hs. cbn [bind].
  eexists. split; reflexivity.
Qed.

(** C1, as the code has it. The endpoint has made its upstream call, the
    call was answered with a 2xx response whose body parses, and the first
    choice's message content is a string that is not empty. Then: if that
    content is not valid JSON, the endpoint answers 502 with the error
    "Model response was not valid JSON." and the raw content; if it parses
    to an object without a [translation] member (the request's summary being
    a string or absent), the endpoint answers 200, the [translation] of the
    answer being the empty string. *)
Theorem upstream_content_contract
    (env : process_env) (req : Request)
    (fetch : fetch_call -> completion upstream_response)
    (call : fetch_call) (resp : upstream_response) (data : json) (content : jsstring) :
  fst (POST env req fetch) = [call] ->
  fetch call = Returns resp ->
  ok resp = true ->
  JSON_parse (up_body resp) = Returns data ->
  message_content data = Returns (Some (JString content)) ->
  content <> [] ->
  (forall e, JSON_parse content = Throws e ->
     snd (POST env req fetch) =
       Returns {| status := 502;
                  body := JObject
                    [(str "error", JString (str "Model response was not valid JSON."));
                     (str "raw", JString content)] |}) /\
  (forall ms payload,
     JSON_parse content = Returns (JObject ms) ->
     member ms (str "translation") = None ->
     JSON_parse (req_body req) = Returns payload ->
     summary_is_text payload ->
     exists out,
       snd (POST env req fetch) = Returns {| status := 200; body := JObject out |} /\
       member out (str "translation") = Some (JString [])).
Proof.
  intros Hcall Hfetch Hok Hdata Hcontent Hne.
  destruct (POST_answer env req fetch call Hcall) as (payload & Hpayload & Hpost).
  rewrite Hpost, Hfetch. cbn [bind].
  rewrite (answer_content payload resp data content Hok Hdata Hcontent Hne).
  split.
  - intros e He. rewrite He. reflexivity.
  - intros ms payload' Hparsed Hmiss Hpayload' Hsum.
    rewrite Hpayload in Hpayload'. injection Hpayload' as <-.
    rewrite Hparsed.
    destruct (normalize_missing_translation payload ms Hsum Hmiss) as (out & Hn & Ht).
    rewrite Hn. cbn [bind]. exists out. split; [reflexivity | exact Ht].
Qed.

(** Content that is not JSON: 502. *)
Example content_not_json :
  snd (POST server translate_hi (upstream_says "Sure! Here it is.")) =
    Returns {| status := 502;
               body := JObject
                 [(str "error", JString (str "Model response was not valid JSON."));
                  (str "raw", JString (str "Sure! Here it is."))] |}.
Proof. vm_compute. reflexivity. Qed.

(** C1 as stated fails on the content [{}], which parses to an object
    without [translation]: the endpoint answers 200. *)
Lemma missing_translation_answers_200 :
  JSON_parse (str "{}") = Returns (JObject []) /\
  member [] (str "translation") = None /\
  snd (POST server translate_hi (upstream_says "{}")) =
    Returns {| status := 200;
               body := JObject
                 [(str "detectedLanguage", JString (str "other"));
                  (str "shouldIgnore", JBool false);
                  (str "translation", JString []);
                  (str "updatedSummary", JString [])] |}.
Proof. vm_compute. repeat split. Qed.

Lemma upstream_content_contract_witness :
  exists out,
    snd (POST server translate_hi (upstream_says "{}"))
      = Returns {| status := 200; body := JObject out |} /\
    member out (str "translation") = Some (JString []).
Proof.
  destruct (POST server translate_hi (upstream_says "{}")) as [calls result] eqn:E.
  assert (Hcalls : exists call, calls = [call]).
  { vm_compute in E. injection E as <- _. eexists; reflexivity. }
  destruct Hcalls as (call & ->).
  assert (H1 : fst (POST server translate_hi (upstream_says "{}")) = [call])
    by (rewrite E; reflexivity).
  assert (H2 : upstream_says "{}" call =
               Returns {| up_status := 200; up_body := completion_body "{}" |})
    by reflexivity.
  assert (H3 : ok {| up_status := 200; up_body := completion_body "{}" |} = true)
    by reflexivity.
  assert (H4 : exists data,
            JSON_parse (completion_body "{}") = Returns data /\
            message_content data = Returns (Some (JString (str "{}")))).
  { eexists. split; vm_compute; reflexivity. }
  destruct H4 as (data & H4 & H5).
  assert (H6 : str "{}" <> []) by discriminate.
  assert (H7 : JSON_parse (str "{}") = Returns (JObject [])) by (vm_compute; reflexivity).
  assert (H8 : member [] (str "translation") = None) by reflexivity.
  assert (H9 : exists payload,
            JSON_parse (req_body translate_hi) = Returns payload /\
            summary_is_text payload).
  { eexists. split; [vm_compute; reflexivity|].
    eexists. split; [reflexivity|]. left. vm_compute. reflexivity. }
  destruct H9 as (payload & H9 & H10).
  destruct (upstream_content_contract server translate_hi (upstream_says "{}")
              call _ data (str "{}") H1 H2 H3 H4 H5 H6) as (_ & Hmissing).
  rewrite E in Hmissing. exact (Hmissing [] payload H7 H8 H9 H10).
Defined.

(** C2 fails on the short-circuit: the summary of the request is echoed as
    it came, all of its 801 characters, in a 200 answer, and no upstream
    call is made. *)
Theorem empty_text_echoes_summary_unclamped :
  forall fetch : fetch_call -> completion upstream_response,
    POST server empty_text_long_summary fetch =
      ([], Returns {| status := 200;
                      body := JObject
                        [(str "detectedLanguage", JString (str "other"));
                         (str "shouldIgnore", JBool false);
                         (str "translation", JString []);
                         (str "updatedSummary", JString long_summary)] |}) /\
    length long_summary = 801%nat.
Proof. intros fetch. vm_compute. split; reflexivity. Qed.

(** On the other path, after the upstream call, every 200 answer carries a
    summary of at most 800. *)
Lemma answer_200_summary_bounded payload resp r :
  answer payload resp = Returns r ->
  status r = 200 ->
  exists ms, body r = JObject ms /\ summary_bounded ms.
Proof.
  unfold answer. destruct (negb (ok resp)).
  { intros [= <-]. discriminate. }
  destruct (JSON_parse (up_body resp)) as [data|]; cbn [bind]; [|discriminate].
  destruct (message_content data) as [content|]; cbn [bind]; [|discriminate].
  assert (Hmissing :
    Returns {| status := 502; body := error_body "Model response missing content." |}
      = Returns r -> status r = 200 -> exists ms, body r = JObject ms /\ summary_bounded ms).
  { intros [= <-]. discriminate. }
  destruct content as [[| | |[|c t]| |]|]; try exact Hmissing.
  destruct (JSON_parse (c :: t)) as [parsed|].
  - destruct (normalize payload parsed) as [out|] eqn:Hn; cbn [bind]; [|discriminate].
    intros [= <-] _. cbn [body]. eapply normalize_summary_bounded, Hn.
  - intros [= <-]. discriminate.
Qed.

End Translate.

(* --------------------------------------------------------------------- *)
(** ** Which key goes upstream                                            *)
(* --------------------------------------------------------------------- *)

Section Keys.
Import Http.

Lemma first_nonempty_picked server header key :
  first_nonempty server (header_trimmed header) = Some key ->
  picked server header key.
Proof.
  unfold first_nonempty, header_trimmed, picked.
  destruct server as [[|c r]|].
  - destruct header as [h|]; cbn [fmap option_fmap option_map]; [|discriminate].
    destruct (trim h) as [|c r] eqn:Ht; [discriminate|].
    intros [= <-]. right. split; [right; reflexivity|].
    exists h. rewrite Ht. repeat split. discriminate.
  - intros [= <-]. left. split; [reflexivity | discriminate].
  - destruct header as [h|]; cbn [fmap option_fmap option_map]; [|discriminate].
    destruct (trim h) as [|c r] eqn:Ht; [discriminate|].
    intros [= <-]. right. split; [left; reflexivity|].
    exists h. rewrite Ht. repeat split. discriminate.
Qed.

(** C8, as the code has it. Every upstream call of the translate endpoint
    carries, as bearer key, the server's OPENAI_API_KEY when that is set and
    not empty, and the trimmed x-openai-api-key header only when it is not;
    likewise every upstream call of the token-mint endpoint, POST or GET,
    with ELEVENLABS_API_KEY and the x-elevenlabs-api-key header. *)
Theorem server_key_before_header :
  (forall env req fetch call,
     call ∈ fst (TranslateRoute.POST env req fetch) ->
     exists key,
       TranslateRoute.Authorization call = str "Bearer " ++ key /\
       picked (TranslateRoute.OPENAI_API_KEY env)
              (TranslateRoute.x_openai_api_key req) key) /\
  (forall env req fetch call,
     call ∈ fst (ScribeTokenRoute.POST env req fetch) \/
     call ∈ fst (ScribeTokenRoute.GET env req fetch) ->
     picked (ScribeTokenRoute.ELEVENLABS_API_KEY env)
            (ScribeTokenRoute.x_elevenlabs_api_key req)
            (ScribeTokenRoute.xi_api_key call)).
Proof.
  split.
  - intros env req fetch call. unfold TranslateRoute.POST, TranslateRoute.getOpenAIKey.
    destruct (first_nonempty _ _) as [apiKey|] eqn:Hkey; [|intros H; inversion H].
    destruct (JSON_parse _) as [payload|]; [|intros H; inversion H].
    destruct (let* t := get payload (str "text") in TranslateRoute.trimmed_text t)
      as [[|c text]|]; try (intros H; inversion H; fail).
    destruct (TranslateRoute.upstream_call env apiKey payload (c :: text))
      as [call'|] eqn:Hcall; [|intros H; inversion H].
    cbn [fst]. intros Hin. apply list_elem_of_singleton in Hin. subst call'.
    exists apiKey. split; [|apply first_nonempty_picked, Hkey].
    unfold TranslateRoute.upstream_call in Hcall.
    repeat (destruct (get payload _); cbn [bind] in Hcall; [|discriminate]).
    injection Hcall as <-. reflexivity.
  - intros env req fetch call. unfold ScribeTokenRoute.GET, ScribeTokenRoute.POST.
    destruct (first_nonempty _ _) as [apiKey|] eqn:Hkey.
    + cbn [fst]. intros [Hin|Hin]; apply list_elem_of_singleton in Hin; subst call;
        apply first_nonempty_picked, Hkey.
    + intros [H|H]; inversion H.
Qed.

(** C8 as stated fails when both are present: the header's key is not the
    one that goes upstream, the server's is; on both endpoints. *)
Lemma header_does_not_override_server_key :
  map TranslateRoute.Authorization
      (fst (TranslateRoute.POST server keyed_request unreachable))
    = [str "Bearer sk-server"] /\
  str "Bearer sk-server" <> str "Bearer sk-header" /\
  map ScribeTokenRoute.xi_api_key
      (fst (ScribeTokenRoute.POST token_server token_request unreachable))
    = [str "xi-server"] /\
  str "xi-server" <> str "xi-header".
Proof. vm_compute. repeat split; discriminate. Qed.

Lemma server_key_before_header_witness :
  (exists call key,
     call ∈ fst (TranslateRoute.POST server keyed_request unreachable) /\
     TranslateRoute.Authorization call = str "Bearer " ++ key /\
     picked (TranslateRoute.OPENAI_API_KEY server)
            (TranslateRoute.x_openai_api_key keyed_request) key) /\
  picked (ScribeTokenRoute.ELEVENLABS_API_KEY token_server)
         (ScribeTokenRoute.x_elevenlabs_api_key token_request)
         (str "xi-server").
Proof.
  destruct server_key_before_header as (Htranslate & Htoken).
  split.
  - destruct (fst (TranslateRoute.POST server keyed_request unreachable))
      as [|call calls] eqn:E; [vm_compute in E; discriminate|].
    assert (Hin : call ∈ fst (TranslateRoute.POST server keyed_request unreachable))
      by (rewrite E; apply list_elem_of_here).
    destruct (Htranslate server keyed_request unreachable call Hin) as (key & Hkey & Hpicked).
    exists call, key. rewrite <- E. auto.
  - apply (Htoken token_server token_request unreachable
             {| ScribeTokenRoute.xi_api_key := str "xi-server" |}).
    left. vm_compute. apply list_elem_of_here.
Defined.

End Keys.

(* --------------------------------------------------------------------- *)
(** ** More on the resampler: what each output sample is                  *)
(* --------------------------------------------------------------------- *)

Section Samples.
Import Scribe.

(** The filling loop writes [body i] at every index. *)
Lemma fill_from n body : forall start (l : Int16Array),
  (start + n <= length l)%nat ->
  foldl (fun out i => typed_set out i (body i)) l (seq start n) =
    take start l ++ map body (seq start n) ++ drop (start + n) l.
Proof.
  induction n as [|n IH]; intros start l Hlen; cbn [seq foldl map].
  - rewrite Nat.add_0_r. cbn [app]. symmetry. apply take_drop.
  - unfold typed_set at 2. rewrite IH by (rewrite length_insert; lia).
    rewrite (take_S_r _ _ (body start))
      by (apply list_lookup_insert_eq; lia).
    rewrite take_insert_ge by lia.
    rewrite drop_insert_lt by lia.
    rewrite <- app_assoc. cbn [app].
    replace (S start + n)%nat with (start + S n)%nat by lia. reflexivity.
Qed.

Lemma fill_map n body : fill n body (replicate n 0) = map body (seq 0 n).
Proof.
  unfold fill. rewrite fill_from by (rewrite length_replicate; lia).
  cbn [take app]. rewrite drop_ge by (rewrite length_replicate; lia).
  apply app_nil_r.
Qed.

Lemma map_indexed {A B} (g : A -> B) (d : A) (l : list A) :
  map (fun i => g (nullish (l !! i) d)) (seq 0 (length l)) = map g l.
Proof.
  apply list_eq. intros i. rewrite !list_lookup_fmap.
  destruct (decide (i < length l)%nat) as [Hi|Hi].
  - rewrite lookup_seq_lt by exact Hi. cbn [fmap option_fmap option_map plus].
    destruct (lookup_lt_is_Some_2 l i Hi) as [x Hx]. rewrite Hx. reflexivity.
  - rewrite lookup_seq_ge by lia. rewrite lookup_ge_None_2 by lia. reflexivity.
Qed.

(** X1. At equal rates (and an input no longer than a typed array can be)
    the function is a sample-by-sample conversion: the output has the
    length of the input, and its sample [i] is the clamped, scaled and
    truncated input sample [i]. *)
Theorem passthrough_converts_each_sample
    (input : Float32Array) (inputSampleRate outputSampleRate : number) :
  num_eq outputSampleRate inputSampleRate = true ->
  Z.of_nat (length input) <= MAX_SAFE_INTEGER ->
  downsampleFloat32ToInt16PCM input inputSampleRate outputSampleRate =
    Returns (map (fun s => scale (clamp s)) input).
Proof.
  intros Hsame Hlen. unfold downsampleFloat32ToInt16PCM. rewrite Hsame.
  rewrite new_Int16Array_num by lia. cbn [bind].
  rewrite Nat2Z.id, fill_map. f_equal.
  apply (map_indexed (fun s => scale (clamp s)) (num 0) input).
Qed.

Lemma passthrough_converts_each_sample_witness :
  downsampleFloat32ToInt16PCM [Fin (1 # 2); NaN; Fin (-2)] (num 16000) (num 16000) =
    Returns (map (fun s => scale (clamp s)) [Fin (1 # 2); NaN; Fin (-2)]).
Proof.
  apply passthrough_converts_each_sample; [reflexivity|].
  apply Z.leb_le. reflexivity.
Defined.

(** *** Truncation and the closed form of the conversion *)

Lemma Qtrunc_floor q :
  Qtrunc q = if 0 <=? Qnum q then Qfloor q else - Qfloor (- q).
Proof.
  unfold Qtrunc, Qfloor. destruct q as [a b]. cbn [Qnum Qden Qopp].
  destruct (Z.leb_spec 0 a).
  - apply Z.quot_div_nonneg; lia.
  - rewrite <- (Z.opp_involutive a) at 1. rewrite Z.quot_opp_l by lia.
    f_equal. apply Z.quot_div_nonneg; lia.
Qed.

Lemma Qnum_sign_comp p q : (p == q)%Q -> (0 <=? Qnum p) = (0 <=? Qnum q).
Proof.
  unfold Qeq. intros H.
  destruct (Z.leb_spec 0 (Qnum p)), (Z.leb_spec 0 (Qnum q)); auto; nia.
Qed.

Lemma Qtrunc_comp p q : (p == q)%Q -> Qtrunc p = Qtrunc q.
Proof.
  intros H. rewrite !Qtrunc_floor, (Qnum_sign_comp p q H).
  destruct (0 <=? Qnum q).
  - apply Qfloor_comp, H.
  - f_equal. apply Qfloor_comp. rewrite H. reflexivity.
Qed.

Lemma Qnum_nonneg q : 0 <= Qnum q <-> (0 <= q)%Q.
Proof. unfold Qle. cbn [Qnum Qden]. lia. Qed.

Lemma Qtrunc_le p q : (p <= q)%Q -> Qtrunc p <= Qtrunc q.
Proof.
  intros H. rewrite !Qtrunc_floor.
  destruct (Z.leb_spec 0 (Qnum p)) as [Hp|Hp], (Z.leb_spec 0 (Qnum q)) as [Hq|Hq].
  - apply Qfloor_resp_le, H.
  - exfalso. apply Qnum_nonneg in Hp. assert (0 <= q)%Q by lra.
    apply Qnum_nonneg in H0. lia.
  - assert (0 <= - p)%Q.
    { assert (~ (0 <= p)%Q) by (rewrite <- Qnum_nonneg; lia). lra. }
    apply Qfloor_resp_le in H0. change (Qfloor 0) with 0 in H0.
    apply Qnum_nonneg in Hq. apply Qfloor_resp_le in Hq.
    change (Qfloor 0) with 0 in Hq. lia.
  - assert (- q <= - p)%Q by lra. apply Qfloor_resp_le in H0. lia.
Qed.

Lemma ToInt16_in_range q :
  -32768 <= Qtrunc q <= 32767 -> ToInt16 (Fin q) = Qtrunc q.
Proof.
  intros H. unfold ToInt16. cbv zeta.
  destruct (Z.leb_spec 32768 (Qtrunc q mod 65536)); Z.div_mod_to_equations; lia.
Qed.

Lemma Qtrunc_bounds q (lo hi : Z) :
  (inject_Z lo <= q)%Q -> (q <= inject_Z hi)%Q -> lo <= Qtrunc q <= hi.
Proof.
  intros Hlo Hhi. apply Qtrunc_le in Hlo, Hhi.
  rewrite Qtrunc_inject_Z in Hlo, Hhi. lia.
Qed.

Ltac qbool H :=
  match type of H with
  | Qle_bool _ _ = true => apply Qle_bool_iff in H
  | Qle_bool ?x ?y = false =>
      let C := fresh in
      assert (C : (y < x)%Q)
        by (apply Qnot_le_lt; intros C; apply Qle_bool_iff in C; congruence);
      clear H; rename C into H
  end.

(** The conversion of a number proper, in closed form. *)
Lemma scale_clamp_quantised a : scale (clamp (Fin a)) = quantised a.
Proof.
  unfold clamp, quantised, Math_min, Math_max, num. cbn [num_lt].
  change (inject_Z 1) with 1%Q. change (inject_Z (-1)) with (-1)%Q.
  destruct (Qle_bool 1 a) eqn:H1; cbn [negb].
  - vm_compute. reflexivity.
  - cbn [num_lt]. destruct (Qle_bool a (-1)) eqn:H2; cbn [negb].
    + vm_compute. reflexivity.
    + qbool H1. qbool H2.
      unfold scale, num. cbn [num_lt num_mul].
      change (inject_Z 0) with 0%Q.
      destruct (Qle_bool 0 a) eqn:H0; cbn [negb]; qbool H0.
      * rewrite ToInt16_in_range; [apply Qtrunc_comp, Qred_correct|].
        apply (Qtrunc_bounds _ (-32768) 32767); rewrite Qred_correct;
          change (inject_Z 32767) with 32767%Q;
          change (inject_Z (-32768)) with (-32768)%Q; nra.
      * rewrite ToInt16_in_range; [apply Qtrunc_comp, Qred_correct|].
        apply (Qtrunc_bounds _ (-32768) 32767); rewrite Qred_correct;
          change (inject_Z 32768) with 32768%Q; change (inject_Z 32767) with 32767%Q;
          change (inject_Z (-32768)) with (-32768)%Q; nra.
Qed.

Lemma quantised_comp a b : (a == b)%Q -> quantised a = quantised b.
Proof.
  intros H. unfold quantised.
  assert (E1 : Qle_bool 1 a = Qle_bool 1 b) by (rewrite H; reflexivity).
  assert (E2 : Qle_bool a (-1) = Qle_bool b (-1)) by (rewrite H; reflexivity).
  assert (E3 : Qle_bool 0 a = Qle_bool 0 b) by (rewrite H; reflexivity).
  rewrite E1, E2, E3.
  destruct (Qle_bool 1 b); [reflexivity|].
  destruct (Qle_bool b (-1)); [reflexivity|].
  destruct (Qle_bool 0 b); apply Qtrunc_comp; rewrite H; reflexivity.
Qed.

Lemma quantised_le a b : (a <= b)%Q -> quantised a <= quantised b.
Proof.
  intros Hab. unfold quantised.
  destruct (Qle_bool 1 a) eqn:A1; qbool A1;
    destruct (Qle_bool 1 b) eqn:B1; qbool B1; try lia; try (exfalso; lra).
  - destruct (Qle_bool a (-1)) eqn:A2; qbool A2; [lia|].
    destruct (Qle_bool 0 a) eqn:A0; qbool A0.
    + apply (Qtrunc_bounds _ 0 32767); change (inject_Z 32767) with 32767%Q;
        change (inject_Z 0) with 0%Q; nra.
    + apply (Z.le_trans _ 0); [|lia].
      apply (Qtrunc_bounds _ (-32768) 0); change (inject_Z (-32768)) with (-32768)%Q;
        change (inject_Z 0) with 0%Q; nra.
  - destruct (Qle_bool a (-1)) eqn:A2; qbool A2;
      destruct (Qle_bool b (-1)) eqn:B2; qbool B2; try lia; try (exfalso; lra).
    + destruct (Qle_bool 0 b) eqn:B0; qbool B0.
      * apply (Z.le_trans _ 0); [lia|].
        apply (Qtrunc_bounds _ 0 32767); change (inject_Z 32767) with 32767%Q;
          change (inject_Z 0) with 0%Q; nra.
      * apply (Qtrunc_bounds _ (-32768) 0); change (inject_Z (-32768)) with (-32768)%Q;
          change (inject_Z 0) with 0%Q; nra.
    + destruct (Qle_bool 0 a) eqn:A0; qbool A0;
        destruct (Qle_bool 0 b) eqn:B0; qbool B0; try (exfalso; lra).
      * apply Qtrunc_le. nra.
      * apply (Z.le_trans _ 0).
        -- apply (Qtrunc_bounds _ (-32768) 0); change (inject_Z (-32768)) with (-32768)%Q;
             change (inject_Z 0) with 0%Q; nra.
        -- apply (Qtrunc_bounds _ 0 32767); change (inject_Z 32767) with 32767%Q;
             change (inject_Z 0) with 0%Q; nra.
      * apply Qtrunc_le. nra.
Qed.

(** X2. The conversion of a sample to 16 bits never wraps around: it is
    monotone in the sample, it saturates at full scale (32767 from 1 up,
    -32768 from -1 down, the infinities included), and NaN becomes 0. *)
Theorem quantisation_monotone_saturating :
  (forall a b : Q, (a <= b)%Q -> scale (clamp (Fin a)) <= scale (clamp (Fin b))) /\
  (forall a : Q, (1 <= a)%Q -> scale (clamp (Fin a)) = 32767) /\
  (forall a : Q, (a <= -1)%Q -> scale (clamp (Fin a)) = -32768) /\
  scale (clamp (Inf false)) = 32767 /\
  scale (clamp (Inf true)) = -32768 /\
  scale (clamp NaN) = 0.
Proof.
  split; [|split; [|split; [|repeat split; vm_compute; reflexivity]]].
  - intros a b Hab. rewrite !scale_clamp_quantised. apply quantised_le, Hab.
  - intros a Ha. rewrite scale_clamp_quantised. unfold quantised.
    apply Qle_bool_iff in Ha. rewrite Ha. reflexivity.
  - intros a Ha. rewrite scale_clamp_quantised. unfold quantised.
    destruct (Qle_bool 1 a) eqn:A1; [qbool A1; exfalso; lra|].
    apply Qle_bool_iff in Ha. rewrite Ha. reflexivity.
Qed.

Lemma quantisation_monotone_saturating_witness :
  scale (clamp (Fin (1 # 3))) <= scale (clamp (Fin (1 # 2))) /\
  scale (clamp (Fin (3 # 2))) = 32767 /\
  scale (clamp (Fin (-7))) = -32768.
Proof.
  destruct quantisation_monotone_saturating as (Hmono & Hhi & Hlo & _).
  split; [|split].
  - apply Hmono. discriminate.
  - apply Hhi. discriminate.
  - apply Hlo. discriminate.
Defined.

(** *** Integer ratios *)

Lemma typed_get_integer {A} (l : list A) y z :
  (y == inject_Z z)%Q -> 0 <= z -> typed_get l (Fin y) = l !! Z.to_nat z.
Proof.
  intros Hy Hz. unfold typed_get, is_integer.
  rewrite (Qtrunc_comp _ _ Hy), Qtrunc_inject_Z.
  apply Qeq_bool_iff in Hy. rewrite Hy.
  destruct (Z.leb_spec 0 z); [reflexivity | lia].
Qed.

Lemma finite_lookup (input : Float32Array) i d :
  Forall finite input -> finite d -> finite (nullish (input !! i) d).
Proof.
  intros Hin Hd. destruct (input !! i) as [x|] eqn:E; cbn; [|exact Hd].
  eapply Forall_lookup_1; eauto.
Qed.

(** At a ratio that is the integer [k], the loop body reads the input at
    [k * i], and the interpolation weight is zero. *)
Lemma interpolate_integer_ratio (input : Float32Array) (r : Q) (k : Z) (i : nat) :
  Forall finite input -> 0 <= k -> (r == inject_Z k)%Q ->
  interpolate input (Fin r) i =
    scale (clamp (nullish (input !! (Z.to_nat k * i)%nat) (num 0))).
Proof.
  intros Hfin Hk Hr. unfold interpolate.
  set (z := Z.of_nat i * k).
  set (x := Qred (inject_Z (Z.of_nat i) * r)).
  assert (Hpos : (x == inject_Z z)%Q).
  { unfold x, z. rewrite Qred_correct, Hr, inject_Z_mult. reflexivity. }
  assert (Hz : 0 <= z) by (unfold z; lia).
  assert (Hidx : Z.to_nat z = (Z.to_nat k * i)%nat).
  { unfold z. rewrite Z2Nat.inj_mul, Nat2Z.id by lia. lia. }
  assert (Hm : num_mul (num (Z.of_nat i)) (Fin r) = Fin x) by reflexivity.
  assert (Hfl : Math_floor (Fin x) = num z).
  { cbn [Math_floor]. rewrite (Qfloor_comp _ _ Hpos), Qfloor_Z. reflexivity. }
  assert (Hg0 : typed_get input (num z) = input !! Z.to_nat z).
  { apply typed_get_integer; [reflexivity | exact Hz]. }
  assert (Hg1 : typed_get input (num_add (num z) (num 1)) = input !! Z.to_nat (z + 1)).
  { apply typed_get_integer; [|lia].
    rewrite Qred_correct, inject_Z_plus. reflexivity. }
  rewrite Hm, Hfl, Hg0, Hg1, Hidx.
  assert (H0 : finite (nullish (input !! (Z.to_nat k * i)%nat) (num 0)))
    by (apply finite_lookup; [exact Hfin | eexists; reflexivity]).
  destruct H0 as (a & Ha). rewrite Ha.
  assert (H1 : finite (nullish (input !! Z.to_nat (z + 1)) (Fin a)))
    by (apply finite_lookup; [exact Hfin | eexists; reflexivity]).
  destruct H1 as (b & Hb). rewrite Hb.
  unfold num_sub, num. cbn [num_neg num_add num_mul].
  rewrite !scale_clamp_quantised. apply quantised_comp.
  rewrite !Qred_correct, Hpos. ring.
Qed.

(** X3. When the input rate is an integer multiple [k >= 2] of the output
    rate and every input sample is a number proper, the function decimates:
    output sample [i] is the conversion of input sample [k * i] alone (of 0
    past the end of the input); the samples in between do not enter the
    output. *)
Theorem integer_ratio_decimates
    (input : Float32Array) (p q : Q) (k : Z) :
  (0 < q)%Q -> 2 <= k -> (p == inject_Z k * q)%Q ->
  Forall finite input ->
  rounded_length (length input) p q <= MAX_SAFE_INTEGER ->
  downsampleFloat32ToInt16PCM input (Fin p) (Fin q) =
    Returns (map (fun i => scale (clamp (nullish (input !! (Z.to_nat k * i)%nat) (num 0))))
                 (seq 0 (Z.to_nat (Z.max 1 (rounded_length (length input) p q))))).
Proof.
  intros Hq Hk Hp Hfin Hfit.
  assert (Hk2 : (2 <= inject_Z k)%Q).
  { change 2%Q with (inject_Z 2). rewrite <- Zle_Qle. exact Hk. }
  assert (Hp0 : (0 < p)%Q) by (rewrite Hp; nra).
  assert (E : Qeq_bool q p = false).
  { destruct (Qeq_bool q p) eqn:E; [|reflexivity].
    apply Qeq_bool_iff in E. rewrite Hp in E. exfalso. nra. }
  pose proof (rounded_length_nonneg (length input) p q Hp0 Hq) as Hnn.
  assert (1 <= MAX_SAFE_INTEGER) by (vm_compute; discriminate).
  unfold downsampleFloat32ToInt16PCM. cbn [num_eq]. rewrite E.
  rewrite requested_length by assumption.
  rewrite new_Int16Array_num by lia. cbn [bind].
  rewrite length_replicate, fill_map. f_equal.
  apply map_ext. intros i.
  unfold num_div. rewrite (Qsign_pos q Hq).
  apply interpolate_integer_ratio; [exact Hfin | lia |].
  rewrite Qred_correct, Hp. field. intros C. rewrite C in Hq. apply (Qlt_irrefl 0 Hq).
Qed.

Lemma integer_ratio_decimates_witness :
  downsampleFloat32ToInt16PCM
    [Fin 1; Fin (1 # 2); Fin (1 # 4); Fin (-1); Fin 0; Fin (3 # 4); Fin (1 # 8)]
    (Fin 48000) (Fin 16000)
  = Returns [32767; -32768].
Proof.
  assert (Hq : (0 < 16000)%Q) by reflexivity.
  assert (Hk : 2 <= 3) by discriminate.
  assert (Hp : (48000 == inject_Z 3 * 16000)%Q) by reflexivity.
  assert (Hfin : Forall finite
    [Fin 1; Fin (1 # 2); Fin (1 # 4); Fin (-1); Fin 0; Fin (3 # 4); Fin (1 # 8)])
    by (repeat constructor; eexists; reflexivity).
  assert (Hfit : rounded_length 7 48000 16000 <= MAX_SAFE_INTEGER)
    by (apply Z.leb_le; vm_compute; reflexivity).
  exact (integer_ratio_decimates _ 48000 16000 3 Hq Hk Hp Hfin Hfit).
Defined.

End Samples.

(* --------------------------------------------------------------------- *)
(** ** From samples to bytes, and the whole message handler               *)
(* --------------------------------------------------------------------- *)

Section Bytes.
Import Scribe.

Lemma int16_bytes_roundtrip z :
  int16 z ->
  Forall byte (int16_bytes z) /\
  samples_of_bytes (int16_bytes z) = [z].
Proof.
  unfold int16, int16_bytes, byte. intros Hz. split.
  - repeat constructor; Z.div_mod_to_equations; lia.
  - cbn [samples_of_bytes]. f_equal. unfold int16_of_bytes. cbv zeta.
    destruct (Z.leb_spec 32768 (z mod 256 + 256 * (z / 256 mod 256)));
      Z.div_mod_to_equations; lia.
Qed.

Lemma buffer_bytes_roundtrip (a : Int16Array) :
  Forall int16 a ->
  Forall byte (buffer_bytes a) /\
  length (buffer_bytes a) = (2 * length a)%nat /\
  samples_of_bytes (buffer_bytes a) = a.
Proof.
  unfold buffer_bytes. induction 1 as [|z a Hz _ (IHb & IHl & IHs)].
  - repeat split. constructor.
  - destruct (int16_bytes_roundtrip z Hz) as (Hb & Hs).
    cbn [map concat]. unfold int16_bytes in *. cbn [app length samples_of_bytes] in *.
    split; [|split].
    + inversion Hb as [|? ? Hlo Hb']. inversion Hb' as [|? ? Hhi _].
      constructor; [exact Hlo|]. constructor; [exact Hhi | exact IHb].
    + rewrite IHl. lia.
    + injection Hs as Hs. rewrite Hs, IHs. reflexivity.
Qed.

(** X4. Whatever the resampler returns goes into the byte view without
    loss: two bytes per sample, each in 0..255, low byte first, and reading
    them back as signed 16-bit little-endian gives the samples again. *)
Theorem resampled_bytes_roundtrip
    (input : Float32Array) (inputSampleRate outputSampleRate : number)
    (pcm16 : Int16Array) :
  downsampleFloat32ToInt16PCM input inputSampleRate outputSampleRate = Returns pcm16 ->
  Forall byte (buffer_bytes pcm16) /\
  length (buffer_bytes pcm16) = (2 * length pcm16)%nat /\
  samples_of_bytes (buffer_bytes pcm16) = pcm16.
Proof.
  intros Hrun. apply buffer_bytes_roundtrip.
  pose proof (downsample_int16_or_RangeError input inputSampleRate outputSampleRate) as H.
  rewrite Hrun in H. exact H.
Qed.

Lemma resampled_bytes_roundtrip_witness :
  buffer_bytes [32767; -32768; -2] = [255; 127; 0; 128; 254; 255] /\
  samples_of_bytes (buffer_bytes [32767; -32768; -2]) = [32767; -32768; -2].
Proof.
  assert (Hrun : downsampleFloat32ToInt16PCM
                   [Fin 1; Fin (-1); Fin (-1 # 16384)] (num 16000) (num 16000)
                 = Returns [32767; -32768; -2]) by (vm_compute; reflexivity).
  destruct (resampled_bytes_roundtrip _ _ _ _ Hrun) as (_ & _ & Hback).
  split; [vm_compute; reflexivity | exact Hback].
Defined.

(** X5. The message handler as a whole, from a buffer shorter than a frame:
    when the resampler returns, the handler leaves by the test of its loop;
    the frames it cut off followed by the bytes it keeps are the bytes it
    had followed by the two bytes of every resampled sample; every frame
    has 6400 bytes, and [connection.send] was given the base64 text of the
    frame's bytes and the sample rate 16000; and it keeps less than a
    frame.  When the resampler throws, the handler throws the same error
    and nothing is sent. *)
Theorem handler_appends_resampled_bytes
    (inputRate : number) (history : list TranscriptLine) (c : chunker)
    (floatChunk : Float32Array) :
  (length (pendingBytes c) < bytesPerChunk)%nat ->
  match downsampleFloat32ToInt16PCM floatChunk inputRate (num targetSampleRate) with
  | Returns pcm16 =>
      exists sent c',
        onmessage inputRate history c floatChunk = Returns (Some (sent, c')) /\
        concat (map fst sent) ++ pendingBytes c' = pendingBytes c ++ buffer_bytes pcm16 /\
        Forall (fun a => length (fst a) = bytesPerChunk) sent /\
        Forall (fun a => audioBase64 (snd a) = bytesToBase64 (new_Uint8Array (fst a)) /\
                         sampleRate (snd a) = 16000) sent /\
        (length (pendingBytes c') < bytesPerChunk)%nat /\
        length sent =
          ((length (pendingBytes c) + 2 * length pcm16) / bytesPerChunk)%nat
  | Throws e => onmessage inputRate history c floatChunk = Throws e
  end.
Proof.
  intros Hc. unfold onmessage.
  destruct (downsampleFloat32ToInt16PCM floatChunk inputRate (num targetSampleRate))
    as [pcm16|e] eqn:Hrun; cbn [bind]; [|reflexivity].
  destruct (onmessage_bytes_spec history c (buffer_bytes pcm16))
    as (sent & c' & H & Hfull & Hrem & Hcat).
  exists sent, c'. rewrite H. split; [reflexivity|]. split; [exact Hcat|].
  split; [exact Hfull|].
  split; [apply payloads; unfold onmessage_bytes in H;
          [eapply drain_encoded, H | eapply drain_rate, H]|].
  split; [exact Hrem|].
  assert (Hlen : length (buffer_bytes pcm16) = (2 * length pcm16)%nat).
  { apply buffer_bytes_roundtrip.
    pose proof (downsample_int16_or_RangeError floatChunk inputRate (num targetSampleRate))
      as Hr. rewrite Hrun in Hr. exact Hr. }
  apply (Nat.div_unique _ _ _ (length (pendingBytes c'))); [exact Hrem|].
  pose proof (full_frames_length sent Hfull) as Hf.
  apply (f_equal length) in Hcat. rewrite !length_app in Hcat. lia.
Qed.

Lemma handler_appends_resampled_bytes_witness :
  exists sent c',
    onmessage (num 48000) []
      {| pendingBytes := replicate (Z.to_nat 6399) 0; firstChunk := true |}
      (replicate 6 (Fin 1))
      = Returns (Some (sent, c')) /\
    length sent = 1%nat /\
    Forall (fun a => audioBase64 (snd a) = bytesToBase64 (new_Uint8Array (fst a)) /\
                     sampleRate (snd a) = 16000) sent.
Proof.
  set (c := {| pendingBytes := replicate (Z.to_nat 6399) 0; firstChunk := true |}).
  assert (Hc : (length (pendingBytes c) < bytesPerChunk)%nat)
    by (apply Nat.ltb_lt; vm_compute; reflexivity).
  pose proof (handler_appends_resampled_bytes (num 48000) [] c
                (replicate 6 (Fin 1)) Hc) as H.
  assert (Hrun : downsampleFloat32ToInt16PCM (replicate 6 (Fin 1)) (num 48000)
                   (num targetSampleRate) = Returns [32767; 32767])
    by (vm_compute; reflexivity).
  rewrite Hrun in H. destruct H as (sent & c' & H & _ & _ & Hsend & _ & Hn).
  exists sent, c'. split; [exact H|]. split; [|exact Hsend].
  rewrite Hn. vm_compute. reflexivity.
Defined.

(** *** The previous text goes out once *)

Lemma drain_context turns : forall history c sent c',
  drain turns history c = Some (sent, c') ->
  context_once (firstChunk c) history sent /\
  firstChunk c' = firstChunk c && bool_decide (sent = []).
Proof.
  induction turns as [|turns IH]; intros history c sent c'; rewrite drain_eq;
    destruct (length (pendingBytes c) <? bytesPerChunk)%nat.
  - intros [= <- <-]. split; [exact I|]. rewrite andb_true_r. reflexivity.
  - discriminate.
  - intros [= <- <-]. split; [exact I|]. rewrite andb_true_r. reflexivity.
  - cbv zeta. unfold send_chunk.
    destruct (drain turns history _) as [[rest c2]|] eqn:Hrun; cbn [mbind option_bind];
      [|discriminate].
    intros [= <- <-]. destruct (IH _ _ _ _ Hrun) as (Hctx & Hfirst).
    cbn [firstChunk] in Hctx, Hfirst. split.
    + cbn [context_once snd previousText]. split; [reflexivity|].
      destruct rest as [|b rest]; [constructor|].
      destruct Hctx as (Hb & Hrest). constructor; assumption.
    + rewrite Hfirst, andb_false_r. reflexivity.
Qed.

Lemma deliver_context history blocks : forall c sent c',
  deliver history c blocks = Some (sent, c') ->
  context_once (firstChunk c) history sent /\
  firstChunk c' = firstChunk c && bool_decide (sent = []).
Proof.
  induction blocks as [|u8 blocks IH]; intros c sent c'; cbn [deliver].
  - intros [= <- <-]. split; [exact I|]. rewrite andb_true_r. reflexivity.
  - destruct (onmessage_bytes history c u8) as [[s1 c1]|] eqn:H1;
      cbn [mbind option_bind]; [|discriminate].
    destruct (deliver history c1 blocks) as [[s2 c2]|] eqn:H2;
      cbn [mbind option_bind]; [|discriminate].
    intros [= <- <-].
    unfold onmessage_bytes in H1. apply drain_context in H1 as (Hctx1 & Hf1).
    cbn [firstChunk] in Hctx1, Hf1.
    apply IH in H2 as (Hctx2 & Hf2). rewrite Hf1 in Hctx2, Hf2.
    destruct s1 as [|a s1]; cbn [app].
    + rewrite andb_true_r in Hctx2, Hf2. split; assumption.
    + rewrite andb_false_r in Hctx2, Hf2. cbn [andb] in Hctx2.
      destruct Hctx1 as (Ha & Hrest). split.
      * split; [exact Ha|]. apply Forall_app. split; [exact Hrest|].
        destruct s2 as [|b s2]; [constructor|]. destruct Hctx2. constructor; assumption.
      * rewrite Hf2, andb_false_r. reflexivity.
Qed.

(** X6. Over any sequence of byte blocks after connecting, the previous
    text goes out at most once: the first frame sent carries the last 12
    committed lines of the history, joined by newlines, when the history is
    not empty; no other frame carries a previous text. *)
Theorem previous_text_on_first_frame_only
    (history : list TranscriptLine) (blocks : list Uint8Array)
    (sent : list (list Z * send_args)) (c' : chunker) :
  deliver history initial_chunker blocks = Some (sent, c') ->
  match sent with
  | [] => firstChunk c' = true
  | a :: rest =>
      previousText (snd a) =
        (if bool_decide (history = []) then None
         else Some (join (last_texts 12 history))) /\
      Forall (fun b => previousText (snd b) = None) rest /\
      firstChunk c' = false
  end.
Proof.
  intros Hrun. apply deliver_context in Hrun as (Hctx & Hfirst).
  cbn [initial_chunker firstChunk] in Hctx, Hfirst.
  destruct sent as [|a rest]; [exact Hfirst|].
  destruct Hctx as (Ha & Hrest). split; [|split; assumption].
  rewrite Ha. cbn [andb]. destruct (bool_decide (history = [])); reflexivity.
Qed.

Lemma previous_text_on_first_frame_only_witness :
  exists sent c',
    deliver [hello] initial_chunker [replicate (Z.to_nat 6400) 1] = Some (sent, c') /\
    match sent with
    | [] => firstChunk c' = true
    | a :: rest =>
        previousText (snd a) = Some (str "Hello") /\
        Forall (fun b => previousText (snd b) = None) rest /\
        firstChunk c' = false
    end.
Proof.
  destruct (deliver_spec [hello] [replicate (Z.to_nat 6400) 1] initial_chunker)
    as (sent & c' & E & _); [apply Nat.ltb_lt; vm_compute; reflexivity|].
  exists sent, c'. split; [exact E|].
  exact (previous_text_on_first_frame_only [hello] _ sent c' E).
Defined.

End Bytes.

(* --------------------------------------------------------------------- *)
(** ** Base64                                                             *)
(* --------------------------------------------------------------------- *)

Section Base64Text.
Import Scribe.

Lemma chunkSize_pos : (0 < Base64.chunkSize)%nat.
Proof. unfold Base64.chunkSize. lia. Qed.

Lemma gather_all turns (bytes : Uint8Array) : forall i binary,
  (length bytes - i <= turns)%nat ->
  Base64.gather turns bytes i binary = Some (binary ++ drop i bytes).
Proof.
  pose proof chunkSize_pos as Hpos.
  induction turns as [|turns IH]; intros i binary Hturns; cbn [Base64.gather];
    destruct (Nat.ltb_spec i (length bytes)) as [Hi|Hi]; try lia.
  - rewrite drop_ge by lia. rewrite app_nil_r. reflexivity.
  - cbv zeta. rewrite IH by lia. f_equal. rewrite <- app_assoc. f_equal.
    rewrite <- (take_drop Base64.chunkSize (drop i bytes)) at 2.
    rewrite drop_drop. reflexivity.
  - rewrite drop_ge by lia. rewrite app_nil_r. reflexivity.
Qed.

(** X7. Gathering the binary string in slices of 0x8000 bytes changes
    nothing: for every byte array the loop ends, and the text it returns is
    the base64 text of all the bytes in their order. *)
Theorem slices_do_not_show (bytes : Uint8Array) :
  Base64.bytesToBase64_by_slices bytes = Some (bytesToBase64 bytes).
Proof.
  unfold Base64.bytesToBase64_by_slices.
  rewrite gather_all by lia. cbn [mbind option_bind app drop]. reflexivity.
Qed.

Lemma base64_char_index i :
  0 <= i < 64 ->
  base64_index (base64_char i) = i /\ base64_char i <> 61%N.
Proof.
  intros Hi. unfold base64_index, base64_char. cbv zeta.
  destruct (Z.ltb_spec i 26); [|destruct (Z.ltb_spec i 52);
    [|destruct (Z.ltb_spec i 62); [|destruct (Z.eqb_spec i 62)]]];
    rewrite Z2N.id by lia;
    (split; [|intros C; apply (f_equal Z.of_N) in C; rewrite Z2N.id in C by lia;
              cbn in C; lia]);
    repeat match goal with
           | |- context [?a <=? ?b] => destruct (Z.leb_spec a b); cbn [andb]; try lia
           | |- context [?a =? ?b] => destruct (Z.eqb_spec a b); try lia
           end.
Qed.

Lemma base64_decode_btoa_bounded n : forall bytes : list Z,
  (length bytes <= n)%nat -> Forall byte bytes ->
  base64_decode (btoa bytes) = bytes /\
  Z.of_nat (length (btoa bytes)) = 4 * ((Z.of_nat (length bytes) + 2) / 3).
Proof.
  induction n as [|n IH]; intros bytes Hn Hb.
  { destruct bytes; [split; reflexivity | cbn in Hn; lia]. }
  destruct bytes as [|a [|b [|c rest]]].
  - split; reflexivity.
  - apply Forall_cons in Hb as [Ha _]. unfold byte in Ha.
    cbn [btoa base64_decode length]. split; [|reflexivity].
    destruct (base64_char_index (a / 4)) as [E1 _]; [Z.div_mod_to_equations; lia|].
    destruct (base64_char_index (a mod 4 * 16)) as [E2 _]; [Z.div_mod_to_equations; lia|].
    rewrite E1, E2. cbn [N.eqb Pos.eqb]. f_equal. Z.div_mod_to_equations. lia.
  - apply Forall_cons in Hb as [Ha Hb]. apply Forall_cons in Hb as [Hb _].
    unfold byte in Ha, Hb.
    cbn [btoa base64_decode length]. split; [|reflexivity].
    destruct (base64_char_index (a / 4)) as [E1 _]; [Z.div_mod_to_equations; lia|].
    destruct (base64_char_index (a mod 4 * 16 + b / 16)) as [E2 _];
      [Z.div_mod_to_equations; lia|].
    destruct (base64_char_index (b mod 16 * 4)) as [E3 N3];
      [Z.div_mod_to_equations; lia|].
    rewrite E1, E2, E3. cbn [N.eqb Pos.eqb].
    apply N.eqb_neq in N3. rewrite N3.
    f_equal; [|f_equal]; Z.div_mod_to_equations; lia.
  - apply Forall_cons in Hb as [Ha Hb]. apply Forall_cons in Hb as [Hb Hc].
    apply Forall_cons in Hc as [Hc Hrest]. unfold byte in Ha, Hb, Hc.
    destruct (IH rest) as [IHd IHl]; [cbn [length] in Hn; lia | exact Hrest |].
    cbn [btoa base64_decode length]. split.
    + destruct (base64_char_index (a / 4)) as [E1 _]; [Z.div_mod_to_equations; lia|].
      destruct (base64_char_index (a mod 4 * 16 + b / 16)) as [E2 _];
        [Z.div_mod_to_equations; lia|].
      destruct (base64_char_index (b mod 16 * 4 + c / 64)) as [E3 _];
        [Z.div_mod_to_equations; lia|].
      destruct (base64_char_index (c mod 64)) as [E4 N4];
        [Z.div_mod_to_equations; lia|].
      rewrite E1, E2, E3, E4. apply N.eqb_neq in N4. rewrite N4, IHd.
      f_equal; [|f_equal; [|f_equal]]; Z.div_mod_to_equations; lia.
    + rewrite !Nat2Z.inj_succ, IHl. Z.div_mod_to_equations. lia.
Qed.

Lemma base64_decode_btoa (bytes : list Z) :
  Forall byte bytes ->
  base64_decode (btoa bytes) = bytes /\
  Z.of_nat (length (btoa bytes)) = 4 * ((Z.of_nat (length bytes) + 2) / 3).
Proof.
  intros Hb. apply (base64_decode_btoa_bounded (length bytes)); [lia | exact Hb].
Qed.

(** X8. The base64 text of a byte array has four characters for every
    three bytes, the last group padded, and reads back as the same bytes:
    different frames never give the same text. *)
Theorem base64_roundtrip (bytes : Uint8Array) :
  Forall byte bytes ->
  base64_decode (bytesToBase64 bytes) = bytes /\
  Z.of_nat (length (bytesToBase64 bytes)) = 4 * ((Z.of_nat (length bytes) + 2) / 3).
Proof. intros Hb. unfold bytesToBase64. apply base64_decode_btoa, Hb. Qed.

Lemma base64_roundtrip_witness :
  bytesToBase64 [77; 97; 110; 255] = str "TWFu/w==" /\
  base64_decode (bytesToBase64 [77; 97; 110; 255]) = [77; 97; 110; 255].
Proof.
  assert (Hb : Forall byte [77; 97; 110; 255]) by (repeat constructor; unfold byte; lia).
  split; [vm_compute; reflexivity|].
  exact (proj1 (base64_roundtrip _ Hb)).
Defined.


Lemma new_Uint8Array_bytes (l : list Z) : Forall byte l -> new_Uint8Array l = l.
Proof.
  induction 1 as [|z l Hz _ IH]; [reflexivity|].
  cbn [new_Uint8Array map]. fold (new_Uint8Array l). rewrite IH. f_equal.
  unfold byte in Hz. apply Z.mod_small. lia.
Qed.

(** X9. What the server is sent is enough to rebuild the audio: when the
    blocks handed to the message handler hold bytes, the texts of the
    [send] calls, decoded in the order of the calls and followed by the
    bytes still pending, are the blocks in the order received; and every
    text has 8536 characters. *)
Theorem sent_texts_decode_to_stream
    (history : list TranscriptLine) (blocks : list Uint8Array)
    (sent : list (list Z * send_args)) (c' : chunker) :
  Forall (Forall byte) blocks ->
  deliver history initial_chunker blocks = Some (sent, c') ->
  concat (map (fun a => base64_decode (audioBase64 (snd a))) sent) ++ pendingBytes c'
    = concat blocks /\
  Forall (fun a => Z.of_nat (length (audioBase64 (snd a))) = 8536) sent.
Proof.
  intros Hbytes Hrun.
  pose proof (deliver_encoded history blocks initial_chunker sent c' Hrun) as Henc.
  destruct (deliver_spec history blocks initial_chunker) as (s & c1 & E & Hfull & _ & Hcat).
  { apply bytesPerChunk_pos. }
  rewrite Hrun in E. injection E as <- <-. cbn [initial_chunker pendingBytes app] in Hcat.
  assert (Hfb : Forall (Forall byte) (frames sent)).
  { apply Forall_concat. apply Forall_concat in Hbytes. rewrite <- Hcat in Hbytes.
    apply Forall_app in Hbytes as [H _]. exact H. }
  assert (Hall : Forall (fun a => base64_decode (audioBase64 (snd a)) = fst a /\
                                  Z.of_nat (length (audioBase64 (snd a))) = 8536) sent).
  { clear Hcat Hrun. induction sent as [|a sent IH]; [constructor|].
    apply Forall_cons in Henc as [Ha Henc]. apply Forall_cons in Hfull as [Hf Hfull].
    cbn [frames map] in Hfb. apply Forall_cons in Hfb as [Hb Hfb].
    constructor; [|apply IH; assumption].
    unfold encoded in Ha. rewrite Ha, new_Uint8Array_bytes by exact Hb.
    destruct (base64_decode_btoa (fst a) Hb) as [Hd Hl]. unfold bytesToBase64.
    split; [exact Hd|].
    rewrite Hl. unfold full_frame in Hf. rewrite Hf, bytesPerChunk_value. reflexivity. }
  split.
  - rewrite <- Hcat. f_equal. f_equal. unfold frames.
    clear -Hall. induction Hall as [|a l [Ha _] _ IH]; [reflexivity|].
    cbn [map]. rewrite Ha, IH. reflexivity.
  - eapply Forall_impl; [exact Hall|]. intros a [_ H]. exact H.
Qed.

Lemma sent_texts_decode_to_stream_witness :
  exists sent c',
    deliver [] initial_chunker [replicate (Z.to_nat 6401) 7] = Some (sent, c') /\
    concat (map (fun a => base64_decode (audioBase64 (snd a))) sent) ++ pendingBytes c'
      = concat [replicate (Z.to_nat 6401) 7].
Proof.
  destruct (deliver_spec [] [replicate (Z.to_nat 6401) 7] initial_chunker)
    as (sent & c' & E & _); [apply bytesPerChunk_pos|].
  exists sent, c'. split; [exact E|].
  refine (proj1 (sent_texts_decode_to_stream [] _ sent c' _ E)).
  constructor; [|constructor]. apply Forall_replicate. unfold byte. lia.
Defined.

End Base64Text.


(* --------------------------------------------------------------------- *)
(** ** The two routes: what they answer and what they call                *)
(* --------------------------------------------------------------------- *)

Section Routes.
Import Http TranslateRoute.

Lemma detected_language_normalised (dl : value) :
  exists lang,
    (if is_supported_language dl then or_else dl JNull else JString (str "other"))
      = JString lang /\
    lang ∈ [str "en"; str "ja"; str "ko"; str "other"].
Proof.
  unfold is_supported_language, is_string.
  destruct dl as [[| | |s| |]|]; cbn [orb];
    try (exists (str "other"); split; [reflexivity | repeat constructor]).
  destruct (decide (s = str "en")) as [->|N1].
  { exists (str "en"). split; [reflexivity | repeat constructor]. }
  destruct (decide (s = str "ja")) as [->|N2].
  { exists (str "ja"). split; [reflexivity | repeat constructor]. }
  destruct (decide (s = str "ko")) as [->|N3].
  { exists (str "ko"). split; [reflexivity | repeat constructor]. }
  rewrite !bool_decide_eq_false_2 by assumption. cbn [orb].
  exists (str "other"). split; [reflexivity | repeat constructor].
Qed.

Lemma normalize_shape payload parsed out :
  normalize payload parsed = Returns out -> answer_shape out.
Proof.
  intros Hn. destruct (normalize_summary_bounded payload parsed out Hn) as (ms & -> & Hb).
  revert Hn. unfold normalize.
  destruct (get parsed (str "detectedLanguage")) as [dl|]; cbn [bind]; [|discriminate].
  destruct (get parsed (str "shouldIgnore")) as [si|]; cbn [bind]; [|discriminate].
  destruct (get parsed (str "translation")) as [tr|]; cbn [bind]; [|discriminate].
  destruct (get parsed (str "updatedSummary")) as [us|]; cbn [bind]; [|discriminate].
  match goal with |- context [bind ?c _] => destruct c as [sm|] end;
    cbn [bind]; [|discriminate].
  destruct (detected_language_normalised dl) as (lang & -> & Hlang).
  intros [= <-]. unfold summary_bounded in Hb.
  change (member _ (str "updatedSummary")) with (Some sm) in Hb.
  exists lang, (truthy si),
    (match tr with Some (JString s) => s | _ => [] end), sm.
  split; [|split; [exact Hlang | destruct sm; try contradiction; exact Hb]].
  destruct tr as [[| | |s| |]|]; reflexivity.
Qed.

Lemma answer_outcomes payload resp r :
  answer payload resp = Returns r ->
  status r = 502 \/ (status r = 200 /\ ok resp = true /\ answer_shape (body r)).
Proof.
  unfold answer. destruct (ok resp); cbn [negb]; [|intros [= <-]; left; reflexivity].
  destruct (JSON_parse (up_body resp)) as [data|]; cbn [bind]; [|discriminate].
  destruct (message_content data) as [content|]; cbn [bind]; [|discriminate].
  destruct content as [[| | |[|c t]| |]|]; try (intros [= <-]; left; reflexivity).
  destruct (JSON_parse (c :: t)) as [parsed|]; [|intros [= <-]; left; reflexivity].
  destruct (normalize payload parsed) as [out|] eqn:Hn; cbn [bind]; [|discriminate].
  intros [= <-]. right. repeat split. eapply normalize_shape, Hn.
Qed.

(** X10. Whatever the model returns, a 200 answer that follows an upstream
    call has the shape the page reads: exactly the members
    [detectedLanguage], one of en, ja, ko and other; [shouldIgnore], a
    boolean; [translation], a string; and [updatedSummary], of at most 800
    characters (or, when the request's own summary was an array and the
    model gave none, at most 800 elements of it). *)
Theorem success_after_upstream_call_has_the_shape
    (env : process_env) (req : Request)
    (fetch : fetch_call -> completion upstream_response) (r : Response) :
  fst (POST env req fetch) <> [] ->
  snd (POST env req fetch) = Returns r ->
  status r = 200 ->
  answer_shape (body r).
Proof.
  intros Hcalls Hr H200.
  destruct (fst (POST env req fetch)) as [|call calls] eqn:E; [contradiction|].
  assert (calls = []) as ->.
  { revert E. unfold POST.
    destruct (getOpenAIKey env req); [|discriminate].
    destruct (JSON_parse (req_body req)) as [payload|]; [|discriminate].
    destruct (let* t := get payload (str "text") in trimmed_text t) as [[|c text]|];
      try discriminate.
    destruct (upstream_call _ _ _ _); [|discriminate].
    cbn [fst]. intros [= _ <-]. reflexivity. }
  destruct (POST_answer env req fetch call E) as (payload & _ & Hsnd).
  rewrite Hsnd in Hr. destruct (fetch call) as [resp|]; cbn [bind] in Hr; [|discriminate].
  destruct (answer_outcomes payload resp r Hr) as [H502 | (_ & _ & Hshape)];
    [rewrite H200 in H502; discriminate | exact Hshape].
Qed.

Lemma success_after_upstream_call_has_the_shape_witness :
  exists r,
    snd (POST server translate_hi (upstream_says "{}")) = Returns r /\
    answer_shape (body r).
Proof.
  eexists. split; [vm_compute; reflexivity|].
  apply (success_after_upstream_call_has_the_shape server translate_hi (upstream_says "{}")).
  - vm_compute. discriminate.
  - vm_compute. reflexivity.
  - reflexivity.
Defined.

(** X11. The translate endpoint calls upstream at most once, and its
    answers go with its calls: 500 (no key) and 400 (body not JSON) are
    given without any call; 200 without a call is the answer to a blank
    text; 502 is only ever given after a call that was answered, and 200
    after a call only for a 2xx response. *)
Theorem translate_answers_and_calls
    (env : process_env) (req : Request)
    (fetch : fetch_call -> completion upstream_response) (r : Response) :
  snd (POST env req fetch) = Returns r ->
  (status r = 500 /\ fst (POST env req fetch) = [] /\ getOpenAIKey env req = None) \/
  (status r = 400 /\ fst (POST env req fetch) = [] /\
     exists e, JSON_parse (req_body req) = Throws e) \/
  (status r = 200 /\ fst (POST env req fetch) = [] /\
     exists payload,
       JSON_parse (req_body req) = Returns payload /\
       (let* t := get payload (str "text") in trimmed_text t) = Returns [] /\
       get_opt (Some (body r)) (str "translation") = Some (JString [])) \/
  (exists call resp,
     fst (POST env req fetch) = [call] /\ fetch call = Returns resp /\
     (status r = 502 \/ (status r = 200 /\ ok resp = true))).
Proof.
  unfold POST.
  destruct (getOpenAIKey env req) as [apiKey|].
  2: { cbn [fst snd]. intros [= <-]. left. repeat split. }
  destruct (JSON_parse (req_body req)) as [payload|e].
  2: { cbn [fst snd]. intros [= <-]. right; left. repeat split. exists e. reflexivity. }
  destruct (let* t := get payload (str "text") in trimmed_text t) as [[|c text]|] eqn:Ht.
  - cbn [fst snd]. unfold empty.
    destruct (get payload (str "summary")) as [summary|]; cbn [bind]; [|discriminate].
    intros [= <-]. right; right; left. repeat split.
    exists payload. repeat split. exact Ht.
  - destruct (upstream_call env apiKey payload (c :: text)) as [call|];
      cbn [fst snd]; [|discriminate].
    destruct (fetch call) as [resp|] eqn:Hf; cbn [bind]; [|discriminate].
    intros Ha. right; right; right. exists call, resp. split; [reflexivity|].
    split; [exact Hf|].
    destruct (answer_outcomes payload resp r Ha) as [H|(H & Hok & _)]; auto.
  - cbn [snd]. discriminate.
Qed.

Lemma translate_answers_and_calls_witness :
  exists r call resp,
    snd (POST server translate_hi (upstream_says "{}")) = Returns r /\
    fst (POST server translate_hi (upstream_says "{}")) = [call] /\
    upstream_says "{}" call = Returns resp /\
    status r = 200 /\ ok resp = true.
Proof.
  assert (H : exists r, snd (POST server translate_hi (upstream_says "{}")) = Returns r
                        /\ status r = 200).
  { eexists. split; [vm_compute; reflexivity | reflexivity]. }
  destruct H as (r & Hr & H200). exists r.
  destruct (translate_answers_and_calls server translate_hi (upstream_says "{}") r Hr)
    as [(H & _) | [(H & _) | [(_ & H & _) | (call & resp & Hc & Hf & Hs)]]].
  - rewrite H200 in H. discriminate.
  - rewrite H200 in H. discriminate.
  - vm_compute in H. discriminate.
  - exists call, resp. destruct Hs as [H | (_ & Hok)];
      [rewrite H200 in H; discriminate | auto].
Defined.


Lemma trimmed_text_nonempty (v : value) c text :
  trimmed_text v = Returns (c :: text) ->
  exists s, v = Some (JString s) /\ trim s = c :: text.
Proof.
  unfold trimmed_text, or_else.
  destruct v as [j|]; [|cbn; discriminate].
  destruct (truthy (Some j)); [|cbn; discriminate].
  destruct j; try discriminate. intros [= H]. eauto.
Qed.

(** X12. What goes upstream is the request's text with the white space
    around it removed, and never a blank one: every upstream call of the
    translate endpoint carries, in its user content, the trimmed text,
    which is not empty; a mode that is partial or committed, whatever the
    request said; and a boolean for updateSummary. *)
Theorem upstream_call_carries_trimmed_text
    (env : process_env) (req : Request)
    (fetch : fetch_call -> completion upstream_response) (call : fetch_call) :
  call ∈ fst (POST env req fetch) ->
  exists payload text ms,
    JSON_parse (req_body req) = Returns payload /\
    get payload (str "text") = Returns (Some (JString text)) /\
    trim text <> [] /\
    userContent call = JObject ms /\
    member ms (str "text") = Some (JString (trim text)) /\
    (member ms (str "mode") = Some (JString (str "partial")) /\
       get payload (str "mode") = Returns (Some (JString (str "partial"))) /\
       temperature call = 1 # 10
     \/
     member ms (str "mode") = Some (JString (str "committed")) /\
       get payload (str "mode") <> Returns (Some (JString (str "partial"))) /\
       temperature call = 2 # 10) /\
    exists b, member ms (str "updateSummary") = Some (JBool b).
Proof.
  unfold POST.
  destruct (getOpenAIKey env req) as [apiKey|]; [|intros H; inversion H].
  destruct (JSON_parse (req_body req)) as [payload|]; [|intros H; inversion H].
  destruct (get payload (str "text")) as [t|] eqn:Htext; cbn [bind];
    [|intros H; inversion H].
  destruct (trimmed_text t) as [[|c text]|] eqn:Ht; try (intros H; inversion H; fail).
  destruct (trimmed_text_nonempty t c text Ht) as (s & -> & Hs).
  unfold upstream_call.
  destruct (get payload (str "mode")) as [mode|] eqn:Hgm; cbn [bind];
    [|intros H; inversion H].
  destruct (get payload (str "updateSummary")) as [us|]; cbn [bind];
    [|intros H; inversion H].
  destruct (get payload (str "sourceLang")) as [sl|]; cbn [bind]; [|intros H; inversion H].
  destruct (get payload (str "targetLang")) as [tl|]; cbn [bind]; [|intros H; inversion H].
  destruct (get payload (str "summary")) as [sm|]; cbn [bind]; [|intros H; inversion H].
  destruct (get payload (str "recent")) as [rc|]; cbn [bind]; [|intros H; inversion H].
  cbn [fst]. intros Hin. apply list_elem_of_singleton in Hin. subst call.
  cbn [userContent temperature].
  exists payload, s. eexists. split; [reflexivity|]. split; [exact Htext|].
  split; [rewrite Hs; discriminate|]. split; [reflexivity|].
  rewrite Hs.
  assert (Hmode : is_string mode (str "partial") = true /\
                    mode = Some (JString (str "partial")) \/
                  is_string mode (str "partial") = false /\
                    mode <> Some (JString (str "partial"))).
  { unfold is_string. destruct mode as [[| | |m| |]|];
      try (right; split; [reflexivity | discriminate]).
    destruct (decide (m = str "partial")) as [->|Hne].
    - left. split; reflexivity.
    - right. rewrite bool_decide_eq_false_2 by exact Hne. split; [reflexivity|].
      intros [= E]. contradiction. }
  destruct Hmode as [[-> ->] | [-> Hne]].
  - split; [destruct sl, tl; reflexivity|]. split.
    + left. split; [destruct sl, tl; reflexivity|]. split; [exact Hgm | reflexivity].
    + exists (truthy us). destruct sl, tl; reflexivity.
  - split; [destruct sl, tl; reflexivity|]. split.
    + right. split; [destruct sl, tl; reflexivity|]. split; [|reflexivity].
      rewrite Hgm. intros [= E]. contradiction.
    + exists (truthy us). destruct sl, tl; reflexivity.
Qed.

Lemma upstream_call_carries_trimmed_text_witness :
  exists call ms,
    fst (POST server translate_hi unreachable) = [call] /\
    userContent call = JObject ms /\
    member ms (str "text") = Some (JString (str "hi")).
Proof.
  destruct (fst (POST server translate_hi unreachable)) as [|call calls] eqn:E;
    [vm_compute in E; discriminate|].
  assert (Hin : call ∈ fst (POST server translate_hi unreachable))
    by (rewrite E; apply list_elem_of_here).
  destruct (upstream_call_carries_trimmed_text server translate_hi unreachable call Hin)
    as (payload & text & ms & Hp & Ht & _ & Hu & Hm & _).
  assert (calls = []) as -> by (vm_compute in E; injection E as _ <-; reflexivity).
  exists call, ms. split; [reflexivity|]. split; [exact Hu|].
  rewrite Hm. vm_compute in Hp. injection Hp as <-. vm_compute in Ht.
  injection Ht as <-. vm_compute. reflexivity.
Defined.

Lemma failure_body_no_token msg resp :
  get_opt (Some (failure_body msg resp)) (str "token") = None.
Proof. unfold failure_body. destruct (up_body resp); reflexivity. Qed.

(** X13. The token endpoint, under GET and under POST alike, makes no
    upstream call without a key and answers 500 then; with a key it makes
    exactly one call, and then answers 200 only for a 2xx response whose
    body is JSON with a truthy [token], handing on that token and nothing
    else; every other answer is 502, and no answer but 200 has a [token]
    member. *)
Theorem token_endpoint_outcomes
    (handler : ScribeTokenRoute.process_env -> ScribeTokenRoute.Request ->
               (ScribeTokenRoute.fetch_call -> completion upstream_response) ->
               list ScribeTokenRoute.fetch_call * completion Response)
    (env : ScribeTokenRoute.process_env) (req : ScribeTokenRoute.Request)
    (fetch : ScribeTokenRoute.fetch_call -> completion upstream_response)
    (r : Response) :
  handler = ScribeTokenRoute.GET \/ handler = ScribeTokenRoute.POST ->
  snd (handler env req fetch) = Returns r ->
  (status r = 500 /\ fst (handler env req fetch) = [] /\
     get_opt (Some (body r)) (str "token") = None) \/
  (exists call resp,
     fst (handler env req fetch) = [call] /\ fetch call = Returns resp /\
     ((status r = 502 /\ get_opt (Some (body r)) (str "token") = None) \/
      (status r = 200 /\ ok resp = true /\
       exists data token,
         JSON_parse (up_body resp) = Returns data /\
         get_opt (Some data) (str "token") = Some token /\
         truthy (Some token) = true /\
         body r = JObject [(str "token", token)]))).
Proof.
  intros Hh. assert (handler = ScribeTokenRoute.POST) as ->
    by (destruct Hh as [-> | ->]; reflexivity).
  unfold ScribeTokenRoute.POST.
  destruct (first_nonempty _ _) as [apiKey|]; cbn [fst snd].
  2: { intros [= <-]. left. repeat split. }
  set (call := {| ScribeTokenRoute.xi_api_key := apiKey |}).
  destruct (fetch call) as [resp|] eqn:Hf; cbn [bind]; [|discriminate].
  intros Hr. right. exists call, resp. split; [reflexivity|]. split; [exact Hf|].
  destruct (ok resp) eqn:Hok; cbn [negb] in Hr.
  - destruct (JSON_parse (up_body resp)) as [data|] eqn:Hd; cbn [bind] in Hr;
      [|discriminate].
    revert Hr. destruct (get_opt (Some data) (str "token")) as [token|] eqn:Hg;
      [|intros [= <-]; left; split; reflexivity].
    destruct (truthy (Some token)) eqn:Ht; [|intros [= <-]; left; split; reflexivity].
    intros [= <-]. right. split; [reflexivity|]. split; [reflexivity|].
    exists data, token. split; [reflexivity|]. split; [exact Hg|].
    split; [exact Ht | reflexivity].
  - injection Hr as <-. left. split; [reflexivity|]. apply failure_body_no_token.
Qed.

Lemma token_endpoint_outcomes_witness :
  exists r,
    snd (ScribeTokenRoute.GET token_server token_request
           (fun _ => Returns {| up_status := 200;
                                up_body := json_text "{'token':'t-1'}" |})) = Returns r /\
    body r = JObject [(str "token", JString (str "t-1"))].
Proof.
  set (fetch := fun _ : ScribeTokenRoute.fetch_call =>
                  Returns {| up_status := 200; up_body := json_text "{'token':'t-1'}" |}).
  assert (H : exists r, snd (ScribeTokenRoute.GET token_server token_request fetch)
                        = Returns r /\ status r = 200).
  { eexists. split; [vm_compute; reflexivity | reflexivity]. }
  destruct H as (r & Hr & H200). exists r. split; [exact Hr|].
  destruct (token_endpoint_outcomes ScribeTokenRoute.GET token_server token_request
              fetch r (or_introl eq_refl) Hr)
    as [(H & _) | (call & resp & _ & Hf & [(H & _) | (_ & _ & data & token & Hd & Hg & _ & Hb)])].
  - rewrite H200 in H. discriminate.
  - rewrite H200 in H. discriminate.
  - injection Hf as <-. vm_compute in Hd. injection Hd as <-.
    vm_compute in Hg. injection Hg as <-. exact Hb.
Defined.

End Routes.


(* --------------------------------------------------------------------- *)
(** ** The command-line check                                             *)
(* --------------------------------------------------------------------- *)

Section Cli.
Import Http VerifyScribe.

Lemma cli_bytesPerChunk_value : Z.of_nat bytesPerChunk = 6400.
Proof. vm_compute. reflexivity. Qed.

Lemma cli_bytesPerChunk_pos : (0 < bytesPerChunk)%nat.
Proof. pose proof cli_bytesPerChunk_value. lia. Qed.

Lemma pieces_spec (L j : nat) : (bytesPerChunk * j < L)%nat <-> (j < pieces L)%nat.
Proof.
  assert (Hj : Z.of_nat (bytesPerChunk * j) = 6400 * Z.of_nat j)
    by (rewrite Nat2Z.inj_mul, cli_bytesPerChunk_value; reflexivity).
  unfold pieces. revert Hj. generalize (bytesPerChunk * j)%nat. intros o Ho.
  assert (H : Z.of_nat o < Z.of_nat L <-> Z.of_nat j < (Z.of_nat L + 6399) / 6400)
    by (Z.div_mod_to_equations; lia).
  lia.
Qed.

Lemma concat_chunks (size : nat) (buf : list Z) (m : nat) : forall j,
  concat (map (chunk_at size buf) (seq j m)) = take (size * m) (drop (size * j) buf).
Proof.
  induction m as [|m IH]; intros j.
  - rewrite Nat.mul_0_r. reflexivity.
  - cbn [seq map concat]. rewrite IH. unfold chunk_at.
    replace (size * S j)%nat with (size * j + size)%nat by lia.
    rewrite <- drop_drop, take_take_drop. f_equal. lia.
Qed.

Lemma stream_accepted turns (accepts : nat -> completion unit) (buf : list Z) :
  (forall k, accepts k = Returns tt) ->
  forall j k,
    (length buf - bytesPerChunk * j <= turns)%nat ->
    stream turns accepts buf (bytesPerChunk * j) k =
      Some (flat_map paced
              (map (chunk_at bytesPerChunk buf) (seq j (pieces (length buf) - j)))
              ++ [connection_commit; wait 1500; connection_close], done).
Proof.
  intros Hacc. induction turns as [|turns IH]; intros j k Hturns; cbn [stream];
    destruct (Nat.ltb_spec (bytesPerChunk * j) (length buf)) as [Hlt|Hge]; try lia.
  - assert (pieces (length buf) - j = 0)%nat as ->; [|reflexivity].
    pose proof (pieces_spec (length buf) j). lia.
  - cbv zeta. rewrite Hacc.
    replace (bytesPerChunk * j + bytesPerChunk)%nat with (bytesPerChunk * S j)%nat by lia.
    pose proof cli_bytesPerChunk_pos.
    rewrite IH by lia. cbn [mbind option_bind].
    assert (pieces (length buf) - j = S (pieces (length buf) - S j))%nat as ->.
    { pose proof (proj1 (pieces_spec (length buf) j) Hlt). lia. }
    reflexivity.
  - assert (pieces (length buf) - j = 0)%nat as ->; [|reflexivity].
    pose proof (pieces_spec (length buf) j). lia.
Qed.

(** X14. Given a key, a path to a file of bytes, a minted token and a
    connection that takes every send, the script streams the whole file:
    after the one token request and the connect come, for chunk after chunk
    of 6400 bytes cut from the file in order, a send of the chunk's base64
    text at 16000 Hz and a pause of 60 ms; then commit, a pause of 1500 ms,
    and close.  The chunks make up the file, none is empty, and, unlike the
    page's message handler, the script also sends the last, shorter one. *)
Theorem cli_streams_whole_file
    (w : world) (fetch : jsstring -> completion upstream_response)
    (accepts : nat -> completion unit)
    (key path : jsstring) (buf : list Z) (token : json) :
  ELEVENLABS_API_KEY w = Some key -> key <> [] ->
  argv_2 w = Some path -> path <> [] ->
  files w path = Some buf ->
  minted fetch key token ->
  (forall k, accepts k = Returns tt) ->
  Forall byte buf ->
  exists chunks,
    main w fetch accepts =
      Some (fetch_token key :: Scribe_connect token :: flat_map paced chunks
              ++ [connection_commit; wait 1500; connection_close], done) /\
    chunks = map (chunk_at bytesPerChunk buf) (seq 0 (pieces (length buf))) /\
    concat chunks = buf /\
    Forall (fun c => c <> [] /\ (length c <= bytesPerChunk)%nat /\
                     base64_decode (Scribe.bytesToBase64 c) = c) chunks.
Proof.
  intros Hkey Hk Hpath Hp Hfile (resp & data & Hf & Hok & Hd & Hg & Ht) Hacc Hbytes.
  eexists. split; [|split; [reflexivity|split]].
  - unfold main. rewrite Hkey. destruct key as [|kc kr]; [contradiction|].
    rewrite Hpath. destruct path as [|pc pr]; [contradiction|].
    rewrite Hfile, Hf, Hok. cbn [negb]. rewrite Hd. cbn [bind]. rewrite Hg, Ht.
    pose proof (stream_accepted (length buf) accepts buf Hacc 0 0) as Hs.
    rewrite Nat.mul_0_r, !Nat.sub_0_r in Hs. rewrite Hs by lia.
    cbn [mbind option_bind]. reflexivity.
  - rewrite concat_chunks. rewrite Nat.mul_0_r. cbn [drop]. apply take_ge.
    destruct (Nat.le_gt_cases (length buf) (bytesPerChunk * pieces (length buf)))
      as [H|H]; [exact H|].
    apply pieces_spec in H. lia.
  - apply Forall_fmap, Forall_seq. intros i Hi. cbn [compose]. unfold chunk_at.
    assert (Hlt : (bytesPerChunk * i < length buf)%nat) by (apply pieces_spec; lia).
    pose proof cli_bytesPerChunk_pos as Hpos.
    split; [|split].
    + intros E. apply (f_equal length) in E. rewrite length_take, length_drop in E.
      cbn [length] in E. lia.
    + rewrite length_take. lia.
    + apply base64_decode_btoa. apply Forall_take, Forall_drop, Hbytes.
Qed.


Lemma cli_streams_whole_file_witness :
  exists chunks,
    main three_byte_file mints_t1 (fun _ => Returns tt) =
      Some (fetch_token (str "xi-key") :: Scribe_connect (JString (str "t-1"))
              :: flat_map paced chunks
              ++ [connection_commit; wait 1500; connection_close], done) /\
    concat chunks = [1; 2; 3].
Proof.
  assert (Hm : minted mints_t1 (str "xi-key") (JString (str "t-1"))).
  { eexists _, _. split; [reflexivity|]. split; [reflexivity|].
    split; [vm_compute; reflexivity|]. split; reflexivity. }
  assert (Hb : Forall byte [1; 2; 3]) by (repeat constructor; unfold byte; lia).
  destruct (cli_streams_whole_file three_byte_file mints_t1 (fun _ => Returns tt)
              (str "xi-key") (str "a.pcm") [1; 2; 3] (JString (str "t-1"))
              eq_refl ltac:(discriminate) eq_refl ltac:(discriminate) eq_refl
              Hm (fun _ => eq_refl) Hb)
    as (chunks & Hmain & _ & Hcat & _).
  exists chunks. split; [exact Hmain | exact Hcat].
Defined.

Lemma stream_ends turns (accepts : nat -> completion unit) (buf : list Z) :
  forall offset k,
    (length buf - offset <= turns)%nat ->
    exists tr e,
      stream turns accepts buf offset k = Some (tr, e) /\
      Forall (fun x => match x with
                       | connection_send _ _ | wait _
                       | connection_commit | connection_close => True
                       | _ => False
                       end) tr /\
      (connection_commit ∈ tr -> e = done) /\
      (e = done -> last tr = Some connection_close) /\
      (forall code, e <> exit code).
Proof.
  pose proof cli_bytesPerChunk_pos as Hpos.
  assert (Hend : exists tr e,
            Some ([connection_commit; wait 1500; connection_close], done) = Some (tr, e) /\
            Forall (fun x => match x with
                             | connection_send _ _ | wait _
                             | connection_commit | connection_close => True
                             | _ => False
                             end) tr /\
            (connection_commit ∈ tr -> e = done) /\
            (e = done -> last tr = Some connection_close) /\
            (forall code, e <> exit code)).
  { eexists _, _. split; [reflexivity|]. repeat split; try discriminate.
    repeat constructor. }
  induction turns as [|turns IH]; intros offset k Hturns; cbn [stream];
    destruct (Nat.ltb_spec offset (length buf)) as [Hlt|Hge]; try lia; try exact Hend.
  cbv zeta. destruct (accepts k) as [[]|err].
  - destruct (IH (offset + bytesPerChunk)%nat (S k)) as (tr & e & -> & Hall & Hc & Hd & Hx);
      [lia|].
    cbn [mbind option_bind]. eexists _, _. split; [reflexivity|]. repeat split.
    + repeat constructor. exact Hall.
    + intros Hin. apply elem_of_cons in Hin as [Hin|Hin]; [discriminate|].
      apply elem_of_cons in Hin as [Hin|Hin]; [discriminate|]. auto.
    + intros He. specialize (Hd He). destruct tr as [|x tr]; [discriminate|].
      exact Hd.
    + exact Hx.
  - eexists _, _. split; [reflexivity|]. repeat split; try discriminate.
    + repeat constructor.
    + intros Hin. apply elem_of_cons in Hin as [Hin|Hin]; [discriminate|].
      inversion Hin.
Qed.

(** X15. The script always comes to an end, and it goes only as far as
    what it has allows.  Without a key, a path or the file it prints one
    error and exits with code 1, before any request.  It connects only
    with a truthy token that the token endpoint has minted for the key, the
    token request being the first thing it did.  Commit is reached only in
    runs that end normally; a run that ends normally has closed the
    connection last; and whenever the script exits on its own, the code
    is 1. *)
Theorem cli_goes_only_as_far_as_allowed
    (w : world) (fetch : jsstring -> completion upstream_response)
    (accepts : nat -> completion unit) :
  exists tr e,
    main w fetch accepts = Some (tr, e) /\
    (nothing_to_stream w -> e = exit 1 /\ exists args, tr = [console_error args]) /\
    (forall token, Scribe_connect token ∈ tr ->
       exists key,
         ELEVENLABS_API_KEY w = Some key /\ key <> [] /\
         minted fetch key token /\ take 1 tr = [fetch_token key]) /\
    (connection_commit ∈ tr -> e = done) /\
    (e = done -> last tr = Some connection_close) /\
    (forall code, e = exit code -> code = 1).
Proof.
  unfold main.
  destruct (ELEVENLABS_API_KEY w) as [[|kc kr]|] eqn:Hkey.
  1, 3: eexists _, _; split; [reflexivity|]; repeat split; eauto;
    try (intros ? Hin; apply list_elem_of_singleton in Hin; discriminate);
    try (intros Hin; apply list_elem_of_singleton in Hin; discriminate);
    try discriminate; intros code [= <-]; reflexivity.
  destruct (argv_2 w) as [[|pc pr]|] eqn:Hpath.
  1, 3: eexists _, _; split; [reflexivity|]; repeat split; eauto;
    try (intros ? Hin; apply list_elem_of_singleton in Hin; discriminate);
    try (intros Hin; apply list_elem_of_singleton in Hin; discriminate);
    try discriminate; intros code [= <-]; reflexivity.
  destruct (files w (pc :: pr)) as [buf|] eqn:Hfile.
  2: { eexists _, _; split; [reflexivity|]; repeat split; eauto;
       try (intros ? Hin; apply list_elem_of_singleton in Hin; discriminate);
       try (intros Hin; apply list_elem_of_singleton in Hin; discriminate);
       try discriminate; intros code [= <-]; reflexivity. }
  assert (Hsome : ~ nothing_to_stream w).
  { intros [H|[H|[H|[H|(path & H1 & H2)]]]]; try congruence. }
  assert (Hshort : forall tr e,
            (forall x, x ∈ tr ->
               (exists y, x = fetch_token y) \/ (exists y, x = console_error y)) ->
            (forall code, e = exit code -> code = 1) -> e <> done ->
            exists tr' e',
              Some (tr, e) = Some (tr', e') /\
              (nothing_to_stream w -> e' = exit 1 /\ exists args, tr' = [console_error args]) /\
              (forall token, Scribe_connect token ∈ tr' ->
                 exists key,
                   Some (kc :: kr) = Some key /\ key <> [] /\
                   minted fetch key token /\ take 1 tr' = [fetch_token key]) /\
              (connection_commit ∈ tr' -> e' = done) /\
              (e' = done -> last tr' = Some connection_close) /\
              (forall code, e' = exit code -> code = 1)).
  { intros tr e Hall Hcode Hnd. exists tr, e. split; [reflexivity|]. repeat split.
    - contradiction.
    - contradiction.
    - intros token Hin. destruct (Hall _ Hin) as [(y & H)|(y & H)]; discriminate.
    - intros Hin. destruct (Hall _ Hin) as [(y & H)|(y & H)]; discriminate.
    - intros He. contradiction.
    - exact Hcode. }
  destruct (fetch (kc :: kr)) as [resp|err] eqn:Hf.
  2: { apply Hshort; auto; try discriminate.
       intros x Hin. apply list_elem_of_singleton in Hin. subst x. eauto. }
  destruct (ok resp) eqn:Hok; cbn [negb].
  2: { apply Hshort; auto; try discriminate.
       - intros x Hin. apply elem_of_cons in Hin as [->|Hin]; [eauto|].
         apply list_elem_of_singleton in Hin. subst x. eauto.
       - intros code [= <-]. reflexivity. }
  destruct (JSON_parse (up_body resp)) as [data|err] eqn:Hd; cbn [bind].
  2: { apply Hshort; auto; try discriminate.
       intros x Hin. apply list_elem_of_singleton in Hin. subst x. eauto. }
  destruct (get data (str "token")) as [[token|]|err] eqn:Hg.
  2: { apply Hshort; auto; try discriminate.
       - intros x Hin. apply elem_of_cons in Hin as [->|Hin]; [eauto|].
         apply list_elem_of_singleton in Hin. subst x. eauto.
       - intros code [= <-]. reflexivity. }
  2: { apply Hshort; auto; try discriminate.
       intros x Hin. apply list_elem_of_singleton in Hin. subst x. eauto. }
  destruct (truthy (Some token)) eqn:Ht.
  2: { apply Hshort; auto; try discriminate.
       - intros x Hin. apply elem_of_cons in Hin as [->|Hin]; [eauto|].
         apply list_elem_of_singleton in Hin. subst x. eauto.
       - intros code [= <-]. reflexivity. }
  destruct (stream_ends (length buf) accepts buf 0 0) as (tr & e & -> & Hall & Hc & Hl & Hx);
    [lia|].
  cbn [mbind option_bind]. eexists _, _. split; [reflexivity|]. repeat split.
  - contradiction.
  - contradiction.
  - intros token' Hin. apply elem_of_cons in Hin as [Hin|Hin]; [discriminate|].
    apply elem_of_cons in Hin as [Hin|Hin].
    + injection Hin as ->. exists (kc :: kr). repeat split; try discriminate.
      exists resp, data. auto.
    + rewrite Forall_forall in Hall. specialize (Hall _ Hin). contradiction.
  - intros Hin. apply elem_of_cons in Hin as [Hin|Hin]; [discriminate|].
    apply elem_of_cons in Hin as [Hin|Hin]; [discriminate|]. auto.
  - intros He. specialize (Hl He). destruct tr as [|x tr]; [discriminate|]. exact Hl.
  - intros code He. destruct (Hx code He).
Qed.

End Cli.


(* --------------------------------------------------------------------- *)
(** ** The event handlers over a whole connection                         *)
(* --------------------------------------------------------------------- *)

Section EventStream.
Import Scribe.

Lemma trimStart_no_lead s : no_lead (trimStart s).
Proof.
  induction s as [|c s IH]; [exact I|].
  cbn [trimStart]. destruct (is_js_space c) eqn:E; [exact IH | exact E].
Qed.

Lemma trimStart_fixed s : no_lead s -> trimStart s = s.
Proof. destruct s as [|c s]; [reflexivity|]. cbn. intros ->. reflexivity. Qed.

Lemma trimStart_suffix s : exists p, s = p ++ trimStart s.
Proof.
  induction s as [|c s (p & IH)]; [exists []; reflexivity|].
  cbn [trimStart]. destruct (is_js_space c).
  - exists (c :: p). cbn [app]. rewrite <- IH. reflexivity.
  - exists []. reflexivity.
Qed.

Lemma trimEnd_prefix s : exists q, s = trimEnd s ++ q.
Proof.
  destruct (trimStart_suffix (rev s)) as (p & H). exists (rev p).
  unfold trimEnd. rewrite <- rev_app_distr, <- H, rev_involutive. reflexivity.
Qed.

Lemma trimEnd_no_lead s : no_lead s -> no_lead (trimEnd s).
Proof.
  intros H. destruct (trimEnd_prefix s) as (q & E).
  destruct (trimEnd s) as [|c t]; [exact I|].
  rewrite E in H. exact H.
Qed.

Lemma trim_idempotent s : trim (trim s) = trim s.
Proof.
  unfold trim at 1.
  rewrite (trimStart_fixed (trim s))
    by (apply trimEnd_no_lead, trimStart_no_lead).
  unfold trimEnd at 1. rewrite trimStart_fixed.
  - apply rev_involutive.
  - unfold trim, trimEnd. rewrite rev_involutive. apply trimStart_no_lead.
Qed.

Lemma on_event_committed r ev s :
  committed (on_event r ev s) =
    committed s ++ match spoken_line (r, ev) with Some l => [l] | None => [] end.
Proof.
  unfold spoken_line. destruct ev; cbn [on_event snd fst];
    try (cbn; rewrite app_nil_r; reflexivity).
  destruct (trim (or_string data_text [])) as [|c t]; [|reflexivity].
  rewrite app_nil_r. reflexivity.
Qed.

(** X16. Under the event handlers the history only grows, and only by
    speech ([reset], which the page calls from "Clear all", is the one
    other writer of the history, and empties it): after any events of the
    connection, in any order, the history is what it was
    followed by one line for each committed transcript whose text is more
    than white space, in the order of arrival; no other event touches it;
    and every line added is a committed line whose text is not empty and
    has no white space at either end. *)
Theorem history_is_append_only
    (evs : list (readings * RealtimeEvent)) (s : state) :
  committed (run_events evs s) = committed s ++ omap spoken_line evs /\
  Forall tidy (omap spoken_line evs).
Proof.
  split.
  - revert s. induction evs as [|[r ev] evs IH]; intros s.
    + cbn. rewrite app_nil_r. reflexivity.
    + unfold run_events in *. cbn [fold_left fst snd]. rewrite IH, on_event_committed.
      rewrite <- app_assoc. f_equal. cbn [omap list_omap].
      destruct (spoken_line (r, ev)); reflexivity.
  - induction evs as [|[r ev] evs IH]; [constructor|].
    cbn [omap list_omap]. destruct (spoken_line (r, ev)) as [l|] eqn:E; [|exact IH].
    constructor; [|exact IH].
    unfold spoken_line in E. cbn [snd fst] in E. destruct ev; try discriminate.
    destruct (trim (or_string data_text [])) as [|c t] eqn:Ht; [discriminate|].
    injection E as <-. unfold tidy, committed_line. cbn [kind text].
    split; [reflexivity|]. split; [discriminate|].
    rewrite <- Ht. apply trim_idempotent.
Qed.

Lemma run_events_snoc evs e s :
  run_events (evs ++ [e]) s = on_event (fst e) (snd e) (run_events evs s).
Proof. unfold run_events. rewrite fold_left_app. reflexivity. Qed.

(** X17. Among the events of a connection the flags follow OPEN and CLOSE
    alone, and an error stays on display (outside the event handlers,
    [connect] and [disconnect] write the flags, and [connect] and [reset]
    clear the error): after any events, [isConnected] is what the last OPEN
    or CLOSE made it (and [isConnecting] is then false), both flags being
    untouched if there was neither; in particular an ERROR event alone
    never takes the hook out of the connected or connecting state.  And a
    last error, once there, is not cleared by any event. *)
Theorem flags_follow_open_and_close
    (evs : list (readings * RealtimeEvent)) (s : state) :
  match last_open_or_close evs with
  | Some b =>
      isConnected (run_events evs s) = b /\ isConnecting (run_events evs s) = false
  | None =>
      isConnected (run_events evs s) = isConnected s /\
      isConnecting (run_events evs s) = isConnecting s
  end /\
  (lastError s <> None -> lastError (run_events evs s) <> None).
Proof.
  induction evs as [|[r ev] evs IH] using rev_ind.
  - cbn. auto.
  - rewrite run_events_snoc. unfold last_open_or_close in *.
    rewrite omap_app. cbn [omap list_omap snd fst].
    destruct IH as [IHf IHe].
    destruct ev; cbn [on_event]; rewrite ?app_nil_r, ?last_snoc.
    + split; [split; reflexivity | exact IHe].
    + split; [split; reflexivity | exact IHe].
    + split; [exact IHf | discriminate].
    + split; [exact IHf | exact IHe].
    + destruct (trim (or_string data_text [])); split; assumption.
Qed.

Lemma flags_follow_open_and_close_witness :
  isConnected (run_events [(at_noon, ERROR None)] live) = true /\
  lastError (run_events [(at_noon, ERROR None); (at_noon, OPEN)] live) <> None.
Proof.
  split.
  - exact (proj1 (proj1 (flags_follow_open_and_close [(at_noon, ERROR None)] live))).
  - apply (proj2 (flags_follow_open_and_close [(at_noon, OPEN)]
                    (run_events [(at_noon, ERROR None)] live))).
    discriminate.
Defined.

End EventStream.


(* --------------------------------------------------------------------- *)
(** ** The page over a whole meeting                                      *)
(* --------------------------------------------------------------------- *)

Section Meeting.
Import Scribe Page.

(** One arrival: the history takes the line; the panel takes at most one
    line, made from the arrival's line; the summary stays or becomes the
    answer's. *)
Lemma commit_step_view input target key a s :
  history (fst (commit_step input target key a s)) = history s ++ [line a] /\
  (exists added,
     translated (view (fst (commit_step input target key a s)))
       = translated (view s) ++ added /\
     (added = [] \/
      exists txt,
        added = [translated_line (line a) txt (now a)] /\
        (txt = text (line a) \/
         exists res c t, outcome a = Resolved res /\ txt = c :: t /\
                         trim (translation res) = c :: t))) /\
  (p_summary (view (fst (commit_step input target key a s))) = p_summary (view s) \/
   exists res, outcome a = Resolved res /\
     p_summary (view (fst (commit_step input target key a s))) = updatedSummary res) /\
  match snd (commit_step input target key a s) with
  | Translate l _ req =>
      l = line a /\ a_summary (posted req) = p_summary (view s) /\ a_text (posted req) = text l
  | Mirror l => l = line a
  | Nothing => True
  end.
Proof.
  unfold commit_step. cbv zeta. unfold committed_effect.
  cbn [scribe_committed summary inputLang targetLang openaiKey].
  rewrite last_snoc.
  destruct (bool_decide _); cbn [fst snd history view complete].
  { repeat split; auto. exists []. rewrite app_nil_r. auto. }
  destruct (_ && _); cbn [fst snd history view complete].
  { repeat split; auto. eexists. split; [reflexivity|]. right. eauto. }
  split; [reflexivity|]. split; [|split; [|repeat split]].
  - unfold on_settled. destruct (outcome a) as [res|].
    2: { exists []. rewrite app_nil_r. auto. }
    destruct (shouldIgnore res); cbn [translated].
    { exists []. rewrite app_nil_r. auto. }
    destruct (trim (translation res)) as [|c t] eqn:Ht; cbn [translated].
    { exists []. rewrite app_nil_r. auto. }
    eexists. split; [reflexivity|]. right. eexists. split; [reflexivity|].
    right. exists res, c, t. auto.
  - rewrite on_settled_summary. destruct (outcome a) as [res|]; [|left; reflexivity].
    destruct (_ && _); [right; exists res; auto | left; reflexivity].
Qed.

Lemma commit_step_ids input target key a s x :
  x ∈ ids s \/ x = id (line a) -> x ∈ ids (fst (commit_step input target key a s)).
Proof.
  unfold commit_step. cbv zeta. unfold committed_effect.
  cbn [scribe_committed summary inputLang targetLang openaiKey].
  rewrite last_snoc. case_bool_decide as Hin; cbn [fst ids].
  - intros [H | ->]; assumption.
  - destruct (_ && _); cbn [fst ids]; intros [H | ->];
      try (apply elem_of_union_l; exact H);
      apply elem_of_union_r, elem_of_singleton; reflexivity.
Qed.

(** When the last line has been through the effect, a further run of the
    effect starts nothing and changes nothing. *)
Lemma rerun_idle input target key o t s :
  (forall l, last (history s) = Some l -> id l ∈ ids s) ->
  rerun input target key o t s = (s, Nothing).
Proof.
  intros Hlast. unfold rerun. cbv zeta. unfold committed_effect.
  cbn [scribe_committed]. destruct s as [h i v]. cbn [history ids view] in *.
  destruct (last h) as [l|]; [|reflexivity].
  rewrite bool_decide_eq_true_2 by (apply Hlast; reflexivity). reflexivity.
Qed.

(** The summary after a run of the effect, and the summary a request
    started by it carries. *)
Lemma rerun_summary input target key o t s :
  (p_summary (view (fst (rerun input target key o t s))) = p_summary (view s) \/
   exists res, o = Resolved res /\
     p_summary (view (fst (rerun input target key o t s))) = updatedSummary res) /\
  match snd (rerun input target key o t s) with
  | Translate _ _ req => a_summary (posted req) = p_summary (view s)
  | _ => True
  end.
Proof.
  unfold rerun. cbv zeta. unfold committed_effect.
  cbn [scribe_committed summary inputLang targetLang openaiKey].
  destruct (last (history s)) as [l|]; cbn [fst snd view complete]; [|auto].
  destruct (bool_decide _); cbn [fst snd view complete]; [auto|].
  destruct (_ && _); cbn [fst snd view complete]; [auto|].
  split; [|reflexivity].
  rewrite on_settled_summary. destruct o as [res|]; [|left; reflexivity].
  destruct (_ && _); [right; exists res; auto | left; reflexivity].
Qed.

Lemma in_step_initial : in_step initial_session.
Proof.
  split; [|split].
  - intros l Hl. inversion Hl.
  - constructor.
  - constructor.
Qed.

Lemma page_step_in_step input target key h s :
  Forall tidy (arrived [h]) -> in_step s ->
  in_step (fst (page_step input target key h s)).
Proof.
  intros Htidy (Hids & Hsub & Hall). destruct h as [a|o t|o t]; cbn [page_step].
  - cbn in Htidy. apply Forall_cons in Htidy as [(_ & Hne & _) _].
    destruct (commit_step_view input target key a s) as (Hh & (added & Hv & Hadd) & _).
    pose proof (commit_step_ids input target key a s) as Hin.
    destruct (commit_step input target key a s) as [s1 w1]. cbn [fst] in *.
    split; [|split].
    + intros l Hl. rewrite Hh in Hl. apply elem_of_app in Hl as [Hl|Hl].
      * apply Hin. left. apply Hids, Hl.
      * apply list_elem_of_singleton in Hl. subst l. apply Hin. right. reflexivity.
    + rewrite Hv, Hh, !map_app.
      destruct Hadd as [-> | (txt & -> & _)]; cbn [map].
      * rewrite app_nil_r. apply sublist_inserts_r, Hsub.
      * apply sublist_app; [exact Hsub | reflexivity].
    + rewrite Hv. apply Forall_app. split; [exact Hall|].
      destruct Hadd as [-> | (txt & -> & Htxt)]; [constructor|].
      constructor; [|constructor]. cbn [translated_line t_text t_id sourceId].
      split; [|reflexivity].
      destruct Htxt as [-> | (res & c & r & _ & -> & _)]; [exact Hne | discriminate].
  - destruct (p_summary (view s)) eqn:Hs; cbn [fst]; [repeat split; assumption|].
    rewrite rerun_idle.
    + cbn [fst]. repeat split; assumption.
    + cbn [clear_summary history ids]. intros l Hl. apply Hids.
      apply last_Some in Hl as (h' & ->). apply elem_of_app. right.
      apply list_elem_of_singleton. reflexivity.
  - rewrite rerun_idle by (cbn; discriminate). cbn [fst clear_all].
    split; [|split]; cbn [history ids view translated map].
    + intros l Hl. inversion Hl.
    + constructor.
    + constructor.
Qed.

(** X18. Whatever happens on the page, the translation panel stays in step
    with the transcript.  Lines arriving one by one, each settled before
    the next, and the two clear buttons clicked at any point in between:
    if the lines are as the hook makes them, then after the run every line
    of the history has been through the effect, the lines of the panel
    name lines of the history in the history's order, at most one for each
    line, and every line of the panel has a text that is not empty and the
    id of its source line with "-t" appended. *)
Theorem panel_stays_in_step
    (input target : LanguageOption) (key : jsstring)
    (happenings : list happening) (s : session) :
  Forall tidy (arrived happenings) ->
  in_step s ->
  in_step (fst (run_page input target key happenings s)).
Proof.
  revert s. induction happenings as [|h rest IH]; intros s Htidy Hs; cbn [run_page].
  { exact Hs. }
  assert (Hh : Forall tidy (arrived [h]) /\ Forall tidy (arrived rest)).
  { unfold arrived in *. cbn [omap list_omap] in *.
    destruct h; cbn [omap list_omap]; try (split; [constructor | exact Htidy]).
    apply Forall_cons in Htidy as [H1 H2].
    split; [constructor; [exact H1 | constructor] | exact H2]. }
  destruct Hh as [Hh Hrest].
  pose proof (page_step_in_step input target key h s Hh Hs) as H1.
  destruct (page_step input target key h s) as [s1 w1]. cbn [fst] in H1.
  specialize (IH s1 Hrest H1).
  destruct (run_page input target key rest s1) as [s2 ws]. exact IH.
Qed.

Lemma panel_stays_in_step_witness :
  in_step (fst (run_page auto ko []
                  [Arrives (answered_arrival 1 "a"); ClearSummary Rejected 2;
                   Arrives (answered_arrival 3 "b"); ClearAll Rejected 4;
                   Arrives (answered_arrival 5 "c")] initial_session)).
Proof.
  apply panel_stays_in_step; [|exact in_step_initial].
  repeat constructor; discriminate.
Defined.

Lemma page_step_summary input target key h s :
  (p_summary (view (fst (page_step input target key h s))) = p_summary (view s) \/
   p_summary (view (fst (page_step input target key h s))) = [] \/
   exists res, settles h = Resolved res /\
     p_summary (view (fst (page_step input target key h s))) = updatedSummary res) /\
  match snd (page_step input target key h s) with
  | Translate _ _ req =>
      a_summary (posted req) = p_summary (view s) \/ a_summary (posted req) = []
  | _ => True
  end.
Proof.
  destruct h as [a|o t|o t]; cbn [page_step settles].
  - destruct (commit_step_view input target key a s) as (_ & _ & Hsum & Hreq).
    split.
    + destruct Hsum as [H | H]; auto.
    + destruct (snd (commit_step input target key a s)); auto.
      destruct Hreq as (_ & H & _). auto.
  - destruct (p_summary (view s)) eqn:Hs; cbn [fst snd]; [auto|].
    destruct (rerun_summary input target key o t (clear_summary s)) as (Hsum & Hreq).
    cbn [clear_summary view p_summary] in Hsum, Hreq. split.
    + destruct Hsum as [H | H]; auto.
    + destruct (snd (rerun input target key o t (clear_summary s))); auto.
  - destruct (rerun_summary input target key o t (clear_all s)) as (Hsum & Hreq).
    cbn [clear_all view p_summary] in Hsum, Hreq. split.
    + destruct Hsum as [H | H]; auto.
    + destruct (snd (rerun input target key o t (clear_all s))); auto.
Qed.

(** X19. The page never holds, and never sends, a longer summary than it
    was given: if every answer's [updatedSummary] has at most 800
    characters, as the endpoint's answers after an upstream call have, and
    the summary on the page starts within 800, then after any run of
    arrivals and clicks the summary on the page is within 800, and so was
    the summary of every request sent on the way. *)
Theorem page_summary_stays_bounded
    (input target : LanguageOption) (key : jsstring)
    (happenings : list happening) (s : session) :
  Forall (fun h => within_800 (settles h)) happenings ->
  (length (p_summary (view s)) <= 800)%nat ->
  (length (p_summary (view (fst (run_page input target key happenings s)))) <= 800)%nat /\
  Forall (fun w => match w with
                   | Translate _ _ req => (length (a_summary (posted req)) <= 800)%nat
                   | _ => True
                   end) (snd (run_page input target key happenings s)).
Proof.
  revert s. induction happenings as [|h rest IH]; intros s Hans Hs; cbn [run_page].
  { split; [exact Hs | constructor]. }
  apply Forall_cons in Hans as [Ha Hans].
  destruct (page_step_summary input target key h s) as (Hsum & Hreq).
  destruct (page_step input target key h s) as [s1 w1]. cbn [fst snd] in *.
  assert (Hs1 : (length (p_summary (view s1)) <= 800)%nat).
  { destruct Hsum as [-> | [-> | (res & Ho & ->)]]; [exact Hs | cbn; lia |].
    unfold within_800 in Ha. rewrite Ho in Ha. exact Ha. }
  destruct (IH s1 Hans Hs1) as (Hfinal & Hall).
  destruct (run_page input target key rest s1) as [s2 ws].
  cbn [fst snd] in *. split; [exact Hfinal|].
  constructor; [|exact Hall].
  destruct w1 as [| |l f req]; auto. destruct Hreq as [-> | ->]; [exact Hs | cbn; lia].
Qed.

Lemma page_summary_stays_bounded_witness :
  (length (p_summary (view (fst (run_page auto ko []
      [Arrives (answered_arrival 1 "a"); ClearSummary Rejected 2;
       Arrives (answered_arrival 3 "b")] initial_session)))) <= 800)%nat.
Proof.
  refine (proj1 (page_summary_stays_bounded auto ko []
      [Arrives (answered_arrival 1 "a"); ClearSummary Rejected 2;
       Arrives (answered_arrival 3 "b")] initial_session _ _)).
  - repeat constructor; cbn; lia.
  - cbn. lia.
Defined.

End Meeting.
